(** * Frame reassembly and decoding of the Modbus RTU sniffer

    A shallow embedding of [SerialSnooper.process_data],
    [SerialSnooper.decode_modbus], [SerialSnooper.calcCRC16] and
    [calculate_timeout] from [modbus_sniffer.py], followed by the
    properties of the decoder that the specification states. *)

From Stdlib Require Import ZArith List Bool Lia.
From Stdlib.Strings Require Import Byte.
From Stdlib Require Import PrimFloat.
From Stdlib Require SpecFloat FloatOps.
Import ListNotations.
Open Scope Z_scope.

(** ** Bytes

    [self.data] is a Python [bytearray]: a mutable sequence of integers in
    [0, 256).  Indexing it yields an [int]; [byte_val] is that conversion. *)

Definition byte_val (b : byte) : Z := Z.of_N (Byte.to_N b).

(** [modbus_data[i]] as an integer.  Every index the decoder reads is
    guarded by a length test, so the default is never observed there. *)
Definition at_ (modbus_data : list byte) (i : nat) : Z :=
  byte_val (nth i modbus_data x00).

(** [(modbus_data[i] * 0x0100) + modbus_data[i + 1]] *)
Definition be16 (modbus_data : list byte) (i : nat) : Z :=
  at_ modbus_data i * 0x0100 + at_ modbus_data (i + 1).

(** [modbus_data[i : i + n]] *)
Definition slice (modbus_data : list byte) (i n : nat) : list byte :=
  firstn n (skipn i modbus_data).

(** ** Checksum engine: [calcCRC16] *)

Module CRC.

Definition crc_hi_table : list Z :=
  [
   0x00; 0xC1; 0x81; 0x40; 0x01; 0xC0; 0x80; 0x41; 0x01; 0xC0; 0x80; 0x41; 0x00; 0xC1; 0x81; 0x40;
   0x01; 0xC0; 0x80; 0x41; 0x00; 0xC1; 0x81; 0x40; 0x00; 0xC1; 0x81; 0x40; 0x01; 0xC0; 0x80; 0x41;
   0x01; 0xC0; 0x80; 0x41; 0x00; 0xC1; 0x81; 0x40; 0x00; 0xC1; 0x81; 0x40; 0x01; 0xC0; 0x80; 0x41;
   0x00; 0xC1; 0x81; 0x40; 0x01; 0xC0; 0x80; 0x41; 0x01; 0xC0; 0x80; 0x41; 0x00; 0xC1; 0x81; 0x40;
   0x01; 0xC0; 0x80; 0x41; 0x00; 0xC1; 0x81; 0x40; 0x00; 0xC1; 0x81; 0x40; 0x01; 0xC0; 0x80; 0x41;
   0x00; 0xC1; 0x81; 0x40; 0x01; 0xC0; 0x80; 0x41; 0x01; 0xC0; 0x80; 0x41; 0x00; 0xC1; 0x81; 0x40;
   0x00; 0xC1; 0x81; 0x40; 0x01; 0xC0; 0x80; 0x41; 0x01; 0xC0; 0x80; 0x41; 0x00; 0xC1; 0x81; 0x40;
   0x01; 0xC0; 0x80; 0x41; 0x00; 0xC1; 0x81; 0x40; 0x00; 0xC1; 0x81; 0x40; 0x01; 0xC0; 0x80; 0x41;
   0x01; 0xC0; 0x80; 0x41; 0x00; 0xC1; 0x81; 0x40; 0x00; 0xC1; 0x81; 0x40; 0x01; 0xC0; 0x80; 0x41;
   0x00; 0xC1; 0x81; 0x40; 0x01; 0xC0; 0x80; 0x41; 0x01; 0xC0; 0x80; 0x41; 0x00; 0xC1; 0x81; 0x40;
   0x00; 0xC1; 0x81; 0x40; 0x01; 0xC0; 0x80; 0x41; 0x01; 0xC0; 0x80; 0x41; 0x00; 0xC1; 0x81; 0x40;
   0x01; 0xC0; 0x80; 0x41; 0x00; 0xC1; 0x81; 0x40; 0x00; 0xC1; 0x81; 0x40; 0x01; 0xC0; 0x80; 0x41;
   0x00; 0xC1; 0x81; 0x40; 0x01; 0xC0; 0x80; 0x41; 0x01; 0xC0; 0x80; 0x41; 0x00; 0xC1; 0x81; 0x40;
   0x01; 0xC0; 0x80; 0x41; 0x00; 0xC1; 0x81; 0x40; 0x00; 0xC1; 0x81; 0x40; 0x01; 0xC0; 0x80; 0x41;
   0x01; 0xC0; 0x80; 0x41; 0x00; 0xC1; 0x81; 0x40; 0x00; 0xC1; 0x81; 0x40; 0x01; 0xC0; 0x80; 0x41;
   0x00; 0xC1; 0x81; 0x40; 0x01; 0xC0; 0x80; 0x41; 0x01; 0xC0; 0x80; 0x41; 0x00; 0xC1; 0x81; 0x40
  ].

Definition crc_lo_table : list Z :=
  [
   0x00; 0xC0; 0xC1; 0x01; 0xC3; 0x03; 0x02; 0xC2; 0xC6; 0x06; 0x07; 0xC7; 0x05; 0xC5; 0xC4; 0x04;
   0xCC; 0x0C; 0x0D; 0xCD; 0x0F; 0xCF; 0xCE; 0x0E; 0x0A; 0xCA; 0xCB; 0x0B; 0xC9; 0x09; 0x08; 0xC8;
   0xD8; 0x18; 0x19; 0xD9; 0x1B; 0xDB; 0xDA; 0x1A; 0x1E; 0xDE; 0xDF; 0x1F; 0xDD; 0x1D; 0x1C; 0xDC;
   0x14; 0xD4; 0xD5; 0x15; 0xD7; 0x17; 0x16; 0xD6; 0xD2; 0x12; 0x13; 0xD3; 0x11; 0xD1; 0xD0; 0x10;
   0xF0; 0x30; 0x31; 0xF1; 0x33; 0xF3; 0xF2; 0x32; 0x36; 0xF6; 0xF7; 0x37; 0xF5; 0x35; 0x34; 0xF4;
   0x3C; 0xFC; 0xFD; 0x3D; 0xFF; 0x3F; 0x3E; 0xFE; 0xFA; 0x3A; 0x3B; 0xFB; 0x39; 0xF9; 0xF8; 0x38;
   0x28; 0xE8; 0xE9; 0x29; 0xEB; 0x2B; 0x2A; 0xEA; 0xEE; 0x2E; 0x2F; 0xEF; 0x2D; 0xED; 0xEC; 0x2C;
   0xE4; 0x24; 0x25; 0xE5; 0x27; 0xE7; 0xE6; 0x26; 0x22; 0xE2; 0xE3; 0x23; 0xE1; 0x21; 0x20; 0xE0;
   0xA0; 0x60; 0x61; 0xA1; 0x63; 0xA3; 0xA2; 0x62; 0x66; 0xA6; 0xA7; 0x67; 0xA5; 0x65; 0x64; 0xA4;
   0x6C; 0xAC; 0xAD; 0x6D; 0xAF; 0x6F; 0x6E; 0xAE; 0xAA; 0x6A; 0x6B; 0xAB; 0x69; 0xA9; 0xA8; 0x68;
   0x78; 0xB8; 0xB9; 0x79; 0xBB; 0x7B; 0x7A; 0xBA; 0xBE; 0x7E; 0x7F; 0xBF; 0x7D; 0xBD; 0xBC; 0x7C;
   0xB4; 0x74; 0x75; 0xB5; 0x77; 0xB7; 0xB6; 0x76; 0x72; 0xB2; 0xB3; 0x73; 0xB1; 0x71; 0x70; 0xB0;
   0x50; 0x90; 0x91; 0x51; 0x93; 0x53; 0x52; 0x92; 0x96; 0x56; 0x57; 0x97; 0x55; 0x95; 0x94; 0x54;
   0x9C; 0x5C; 0x5D; 0x9D; 0x5F; 0x9F; 0x9E; 0x5E; 0x5A; 0x9A; 0x9B; 0x5B; 0x99; 0x59; 0x58; 0x98;
   0x88; 0x48; 0x49; 0x89; 0x4B; 0x8B; 0x8A; 0x4A; 0x4E; 0x8E; 0x8F; 0x4F; 0x8D; 0x4D; 0x4C; 0x8C;
   0x44; 0x84; 0x85; 0x45; 0x87; 0x47; 0x46; 0x86; 0x82; 0x42; 0x43; 0x83; 0x41; 0x81; 0x80; 0x40
  ].

(** [table[crc]] *)
Definition lookup (table : list Z) (crc : Z) : Z :=
  nth (Z.to_nat crc) table 0.

(** The body of [while index < size], started at [data[index:]] with
    [size - index] iterations left.  Where the source would index past the
    end of [data] and raise [IndexError] ([size > len(data)]) this loop
    stops; [calcCRC16_checked] below keeps the exception, and every call
    of the decoder has [size <= len(data)]. *)
Fixpoint crc_loop (data : list byte) (size : nat) (crc_hi crc_lo : Z) : Z * Z :=
  match size, data with
  | S size', b :: data' =>
      let crc := Z.lxor crc_hi (byte_val b) in
      crc_loop data' size' (Z.lxor crc_lo (lookup crc_hi_table crc))
               (lookup crc_lo_table crc)
  | _, _ => (crc_hi, crc_lo)
  end.

Definition calcCRC16 (data : list byte) (size : nat) : Z :=
  let '(crc_hi, crc_lo) := crc_loop data size 0xFF 0xFF in
  crc_hi * 0x0100 + crc_lo.

End CRC.
Import CRC.

(** ** Frame event model

    The decoder reports through [log.info]; an event records the values a
    log line is formatted from, under the names of the decoder's local
    variables.  (The line of the FC23 request prints [write_address]
    before [read_quantity]; the values are the same.)  The text of a line
    also depends on [get_configuration().get_slave_id_format()], which is
    taken to be loaded: it does not affect what is decoded. *)

Inductive payload : Type :=
| ReadFields (read_address read_quantity : Z)
| ReadData (read_byte_count : Z) (read_data : list byte)
| WriteSingle (write_address : Z) (write_data : list byte)
| WriteAddress (write_address : Z)
| WriteMultiple (write_address write_quantity : Z) (write_data : list byte)
| WriteFields (write_address write_quantity : Z)
| ReadWrite (read_address read_quantity write_address write_quantity : Z)
            (write_data : list byte).

Inductive event : Type :=
| Ignoring (trash : list byte)
    (* "Warning : Ignoring data: [..]" *)
| Request (unit_identifier function_code : Z) (fields : payload)
    (* "Master -> ID: .." with [request = True] *)
| Response (unit_identifier function_code : Z) (fields : payload)
    (* "Slave -> ID: .." with [response = True] *)
| Exception (unit_identifier function_code exception_code : Z).
    (* "Slave -> ID: .., Exception .." with [error = True] *)

(** A log line together with the bytes it accounts for: for a frame the
    slice [modbus_data[:buffer_index]] that
    [modbus_data = modbus_data[buffer_index:]] drops, for an ignored run
    the bytes listed in the line. *)
Definition entry : Type := event * list byte.

Definition is_exception (e : event) : bool :=
  match e with Exception _ _ _ => true | _ => false end.

Definition is_response (e : event) : bool :=
  match e with Response _ _ _ => true | _ => false end.

Definition is_request (e : event) : bool :=
  match e with Request _ _ _ => true | _ => false end.

Definition is_frame (e : event) : bool :=
  match e with Ignoring _ => false | _ => true end.

(** ** Frame shapes

    One attempt at one shape.  [frame_start_index] is 0 in every iteration
    of the decoder's loop: an iteration that does not return ends with
    [buffer_index = 0]. *)

Inductive attempt : Type :=
| Matched (e : event) (buffer_index : nat)
    (* [crc16 == met_crc16]; [buffer_index] is past the CRC *)
| Mismatch
    (* enough bytes, [crc16 != met_crc16] *)
| NeedMore.
    (* [need_more_data = True] *)

(** [crc16 == met_crc16] with the CRC stored at [buffer_index]. *)
Definition crc_ok (modbus_data : list byte) (buffer_index : nat) : bool :=
  be16 modbus_data buffer_index =? calcCRC16 modbus_data buffer_index.

(** [len(modbus_data) >= (frame_start_index + expected_length)] *)
Definition has_length (modbus_data : list byte) (expected_length : nat) : bool :=
  (expected_length <=? length modbus_data)%nat.

Section Shapes.

Variable unit_identifier function_code : Z.
Variable modbus_data : list byte.

(** FC01-FC04 request. *)
Definition read_request : attempt :=
  if has_length modbus_data 8 then
    if crc_ok modbus_data 6 then
      Matched (Request unit_identifier function_code
                 (ReadFields (be16 modbus_data 2) (be16 modbus_data 4))) 8
    else Mismatch
  else NeedMore.

(** FC01-FC04 and FC23 response. *)
Definition read_response : attempt :=
  if has_length modbus_data 7 then
    let read_byte_count := at_ modbus_data 2 in
    let n := Z.to_nat read_byte_count in
    if has_length modbus_data (5 + n) then
      if crc_ok modbus_data (3 + n) then
        Matched (Response unit_identifier function_code
                   (ReadData read_byte_count (slice modbus_data 3 n))) (5 + n)
      else Mismatch
    else NeedMore
  else NeedMore.

(** FC05 and FC06 request. *)
Definition write_single_request : attempt :=
  if has_length modbus_data 8 then
    if crc_ok modbus_data 6 then
      Matched (Request unit_identifier function_code
                 (WriteSingle (be16 modbus_data 2) (slice modbus_data 4 2))) 8
    else Mismatch
  else NeedMore.

(** FC05 response. *)
Definition write_coil_response : attempt :=
  if has_length modbus_data 6 then
    if crc_ok modbus_data 4 then
      Matched (Response unit_identifier function_code
                 (WriteAddress (be16 modbus_data 2))) 6
    else Mismatch
  else NeedMore.

(** FC06 response. *)
Definition write_register_response : attempt :=
  if has_length modbus_data 8 then
    if crc_ok modbus_data 6 then
      Matched (Response unit_identifier function_code
                 (WriteSingle (be16 modbus_data 2) (slice modbus_data 4 2))) 8
    else Mismatch
  else NeedMore.

(** FC15 ([expected_length = 10]) and FC16 ([expected_length = 11])
    request. *)
Definition write_multiple_request (expected_length : nat) : attempt :=
  if has_length modbus_data expected_length then
    let write_byte_count := at_ modbus_data 6 in
    let n := Z.to_nat write_byte_count in
    if has_length modbus_data (9 + n) then
      if crc_ok modbus_data (7 + n) then
        Matched (Request unit_identifier function_code
                   (WriteMultiple (be16 modbus_data 2) (be16 modbus_data 4)
                      (slice modbus_data 7 n))) (9 + n)
      else Mismatch
    else NeedMore
  else NeedMore.

(** FC15 and FC16 response. *)
Definition write_multiple_response : attempt :=
  if has_length modbus_data 8 then
    if crc_ok modbus_data 6 then
      Matched (Response unit_identifier function_code
                 (WriteFields (be16 modbus_data 2) (be16 modbus_data 4))) 8
    else Mismatch
  else NeedMore.

(** FC23 request. *)
Definition read_write_request : attempt :=
  if has_length modbus_data 15 then
    let write_byte_count := at_ modbus_data 10 in
    let n := Z.to_nat write_byte_count in
    if has_length modbus_data (13 + n) then
      if crc_ok modbus_data (11 + n) then
        Matched (Request unit_identifier function_code
                   (ReadWrite (be16 modbus_data 2) (be16 modbus_data 4)
                      (be16 modbus_data 6) (be16 modbus_data 8)
                      (slice modbus_data 11 n))) (13 + n)
      else Mismatch
    else NeedMore
  else NeedMore.

(** The error shape: the [function_code >= 0x80] branch, and the last
    block of the FC16 branch. *)
Definition exception_shape : attempt :=
  if has_length modbus_data 5 then
    if crc_ok modbus_data 3 then
      Matched (Exception unit_identifier function_code (at_ modbus_data 2)) 5
    else Mismatch
  else NeedMore.

End Shapes.

(** ** One frame

    The flags of one iteration once its branch is done: the frame that
    matched, if any ([request], [response] or [error] is [True]), and
    [need_more_data]. *)

Record verdict : Type := Verdict {
  matched : option (event * nat);
  need_more_data : bool
}.

(** The shapes of a branch in source order.  A shape is tried only while
    none before it matched ([if request is False:],
    [if (request is False) & (response is False):]); an attempt that lacks
    bytes sets [need_more_data] and the next shape is still tried. *)
Fixpoint try_shapes (shapes : list attempt) (need_more : bool) : verdict :=
  match shapes with
  | [] => Verdict None need_more
  | Matched e buffer_index :: _ => Verdict (Some (e, buffer_index)) need_more
  | Mismatch :: rest => try_shapes rest need_more
  | NeedMore :: rest => try_shapes rest true
  end.

(** The shapes of the branch that [function_code] selects. *)
Definition shapes_of (unit_identifier function_code : Z)
    (modbus_data : list byte) : list attempt :=
  let u := unit_identifier in
  let fc := function_code in
  if (fc =? 1) || (fc =? 2) then
    [read_request u fc modbus_data; read_response u fc modbus_data]
  else if (fc =? 3) || (fc =? 4) then
    [read_request u fc modbus_data; read_response u fc modbus_data]
  else if fc =? 5 then
    [write_single_request u fc modbus_data; write_coil_response u fc modbus_data]
  else if fc =? 6 then
    [write_single_request u fc modbus_data;
     write_register_response u fc modbus_data]
  else if fc =? 15 then
    [write_multiple_request u fc modbus_data 10;
     write_multiple_response u fc modbus_data]
  else if fc =? 16 then
    [write_multiple_request u fc modbus_data 11;
     write_multiple_response u fc modbus_data;
     exception_shape u fc modbus_data]
  else if fc =? 23 then
    [read_write_request u fc modbus_data; read_response u fc modbus_data]
  else if 0x80 <=? fc then
    [exception_shape u fc modbus_data]
  else [].

Definition decode_frame (modbus_data : list byte) : verdict :=
  if (2 <? length modbus_data)%nat then
    try_shapes (shapes_of (at_ modbus_data 0) (at_ modbus_data 1) modbus_data)
               false
  else Verdict None true.

(** ** The decoder state and loop

    [trash_data_f] is the text "Ignoring data: [.." under construction;
    the model keeps the bytes listed in it.  It is reassigned when a run
    is opened and is left as it is when the run is closed. *)

Record SerialSnooper : Type := Snooper {
  data : list byte;
  trash_data : bool;
  trash_data_f : list byte
}.

(** The bytes of the ignored run that is open, if one is. *)
Definition open_trash (self : SerialSnooper) : list byte :=
  if trash_data self then trash_data_f self else [].

Inductive control : Type :=
| Return      (* [return modbus_data] *)
| Continue.   (* next iteration of [while True] *)

(** One iteration of [while True] in [decode_modbus].  The [data] field of
    the state holds the local [modbus_data]. *)
Definition loop_body (self : SerialSnooper) : control * SerialSnooper * list entry :=
  let modbus_data := data self in
  let v := decode_frame modbus_data in
  match matched v with
  | Some (e, buffer_index) =>
      (* [if self.trash_data: ...; log.info(self.trash_data_f)], then the
         frame's line and [modbus_data = modbus_data[buffer_index:]] *)
      let closed := if trash_data self
                    then [(Ignoring (trash_data_f self), trash_data_f self)]
                    else [] in
      (if need_more_data v then Return else Continue,
       Snooper (skipn buffer_index modbus_data) false (trash_data_f self),
       closed ++ [(e, firstn buffer_index modbus_data)])
  | None =>
      if need_more_data v then (Return, self, [])
      else
        (* [request], [response] and [error] are all [False] *)
        let b := nth 0 modbus_data x00 in
        (Continue,
         Snooper (skipn 1 modbus_data) true
                 (if trash_data self then trash_data_f self ++ [b] else [b]),
         [])
  end.

(** [decode_modbus]: the loop, with the number of iterations bounded by
    [fuel]; [None] when the bound is reached. *)
Fixpoint decode_loop (fuel : nat) (self : SerialSnooper) (log : list entry)
    : option (SerialSnooper * list entry) :=
  match fuel with
  | O => None
  | S fuel' =>
      let '(c, self', out) := loop_body self in
      match c with
      | Return => Some (self', log ++ out)
      | Continue => decode_loop fuel' self' (log ++ out)
      end
  end.

(** [self.decode_modbus(self.data)]: the returned [modbus_data] is the
    [data] field of the result, as [process_data] stores it. *)
Definition decode_modbus (self : SerialSnooper) : option (SerialSnooper * list entry) :=
  decode_loop (S (length (data self))) self [].

(** ** [process_data] *)

Definition process_data (self : SerialSnooper) (data_to_process : list byte)
    : option (SerialSnooper * list entry) :=
  if (length data_to_process <=? 0)%nat then
    if (2 <? length (data self))%nat then decode_modbus self
    else Some (self, [])
  else
    Some (Snooper (data self ++ data_to_process) (trash_data self)
                  (trash_data_f self), []).

(** The driver loop [while True: sniffer.process_data(sniffer.read_raw())]
    over a finite sequence of reads. *)
Fixpoint process_all (self : SerialSnooper) (chunks : list (list byte))
    (log : list entry) : option (SerialSnooper * list entry) :=
  match chunks with
  | [] => Some (self, log)
  | chunk :: chunks' =>
      match process_data self chunk with
      | Some (self', out) => process_all self' chunks' (log ++ out)
      | None => None
      end
  end.

(** [SerialSnooper.__init__] *)
Definition init : SerialSnooper := Snooper [] false [].

Definition events (log : list entry) : list event := map fst log.
Definition spans (log : list entry) : list byte := concat (map snd log).

(** The three components of one iteration. *)
Definition step_control (self : SerialSnooper) : control :=
  fst (fst (loop_body self)).
Definition step_state (self : SerialSnooper) : SerialSnooper :=
  snd (fst (loop_body self)).
Definition step_out (self : SerialSnooper) : list entry :=
  snd (loop_body self).

(** ** [calculate_timeout]

    [configured_baud_rate] is a Python [int]; the result is an IEEE 754
    binary64 value ([float]) or an exception.  [33 / configured_baud_rate]
    is the true division of two ints: the exact quotient rounded once to
    the nearest double, ties to even, [-0.0] or [0.0] on underflow,
    [ZeroDivisionError] for a zero divisor and [OverflowError] when the
    rounded quotient is not finite.  [SFdiv] at precision 53 on the two
    integers, taken as exact binary numbers, is that division. *)

Set Warnings "-inexact-float".

Inductive float_result : Type :=
| Value (t : float)
| ZeroDivisionError
| OverflowError.

(** A Python [int] as an exact binary number. *)
Definition int_exact (z : Z) : SpecFloat.spec_float :=
  match z with
  | Z0 => SpecFloat.S754_zero false
  | Zpos p => SpecFloat.S754_finite false p 0
  | Zneg p => SpecFloat.S754_finite true p 0
  end.

(** [a / b] for two ints. *)
Definition int_truediv (a b : Z) : float_result :=
  if b =? 0 then ZeroDivisionError
  else
    match SpecFloat.SFdiv FloatOps.prec FloatOps.emax
            (int_exact a) (int_exact b) with
    | SpecFloat.S754_infinity _ => OverflowError
    | q => Value (FloatOps.SF2Prim q)
    end.

Definition calculate_timeout (configured_baud_rate : Z) : float_result :=
  if configured_baud_rate <? 19200 then int_truediv 33 configured_baud_rate
  else Value 0.001750%float.

(** No double is nearer to the rational [num / den], with [den > 0],
    than the positive normal double [t = m * 2^e]: the rational is at
    most half a step [2^e] above [t], or at most half a step below it,
    the step below being [2^(e-1)] when [m = 2^52].  [diff] is
    [num / den - t] scaled by [den * 2^(-e)]. *)
Definition nearest_double (num den : Z) (t : float) : bool :=
  match FloatOps.Prim2SF t with
  | SpecFloat.S754_finite false m e =>
      let diff := num * 2 ^ (- e) - Z.pos m * den in
      (2 ^ 52 <=? Z.pos m) && (Z.pos m <? 2 ^ 53) && (e <=? 0)
      && (if 0 <=? diff then 2 * diff <=? den
          else if Z.pos m =? 2 ^ 52 then 4 * (- diff) <=? den
               else 2 * (- diff) <=? den)
  | _ => false
  end.

(** [f] holds of the [count] integers from [lo] on. *)
Fixpoint all_from (f : Z -> bool) (lo : Z) (count : nat) : bool :=
  match count with
  | O => true
  | S k => f lo && all_from f (lo + 1) k
  end.

(** What is checked of each baud rate from 1 to 19199: the timeout is a
    double nearest to 33/B and not one nearest to 38.5/B, above
    [0.00171875] and of at most 33. *)
Definition timeout_checks (B : Z) : bool :=
  match calculate_timeout B with
  | Value t =>
      nearest_double 33 B t && negb (nearest_double 77 (2 * B) t)
      && PrimFloat.ltb 0.00171875 t && PrimFloat.leb t 33
  | _ => false
  end.


(** ** Predicates of the statements *)

Definition attempt_sat (P : event -> nat -> Prop) (a : attempt) : Prop :=
  match a with
  | Matched e buffer_index => P e buffer_index
  | _ => True
  end.

Definition is_need_more (a : attempt) : bool :=
  match a with NeedMore => true | _ => false end.

(** A frame that matches a shape lies within the buffer and has at least
    5 bytes. *)
Definition fits (d : list byte) (e : event) (n : nat) : Prop :=
  (5 <= n <= length d)%nat /\ is_frame e = true.

Definition closed_trash (self : SerialSnooper) : list entry :=
  if trash_data self
  then [(Ignoring (trash_data_f self), trash_data_f self)]
  else [].

(** The three ways an iteration can go. *)
Inductive step_case (self : SerialSnooper) : Prop :=
| StepFrame e n :
    matched (decode_frame (data self)) = Some (e, n) ->
    fits (data self) e n ->
    step_case self
| StepNeedMore :
    matched (decode_frame (data self)) = None ->
    need_more_data (decode_frame (data self)) = true ->
    step_case self
| StepNoise :
    matched (decode_frame (data self)) = None ->
    need_more_data (decode_frame (data self)) = false ->
    (2 < length (data self))%nat ->
    step_case self.

(** ** Sample buffers *)

(** Unit 1, read holding registers, address 0, quantity 10. *)
Definition read_holding_request : list byte :=
  [x01; x03; x00; x00; x00; x0a; xc5; xcd].

(** Unit 1, function code [0x83], exception code 2. *)
Definition exception_frame_83 : list byte := [x01; x83; x02; xc0; xf1].

(** Five bytes with function code [0x10] and a valid checksum. *)
Definition exception_frame_10 : list byte := [x01; x10; x02; xac; x01].

(** Unit 1, read holding registers, 2 data bytes. *)
Definition read_response_7 : list byte := [x01; x03; x02; x00; x0a; x38; x43].


(** Unit 15, read holding registers, address 0, quantity 10. *)
Definition read_holding_request_15 : list byte :=
  [x0f; x03; x00; x00; x00; x0a; xc4; xe3].

(** Unit 1, write multiple coils, address 0, quantity 10. *)
Definition write_coils_response : list byte :=
  [x01; x0f; x00; x00; x00; x0a; xd5; xcc].

(** ** Indexing as Python does it

    [calcCRC16] indexes [data] and its two tables; an index past the end of
    a list raises [IndexError].  [calcCRC16_checked] is the same loop with
    every index checked, [None] standing for the exception. *)

(** [l[i]] for a Python list: counted from the end when [i] is negative,
    [IndexError] outside [-len(l) <= i < len(l)]. *)
Definition list_index {A : Type} (l : list A) (i : Z) : option A :=
  if 0 <=? i then nth_error l (Z.to_nat i)
  else if - Z.of_nat (length l) <=? i
       then nth_error l (Z.to_nat (Z.of_nat (length l) + i))
       else None.

Definition lookup_checked (table : list Z) (crc : Z) : option Z :=
  list_index table crc.

Fixpoint crc_loop_checked (data : list byte) (size : nat) (crc_hi crc_lo : Z)
    : option (Z * Z) :=
  match size with
  | O => Some (crc_hi, crc_lo)
  | S size' =>
      match data with
      | [] => None
      | b :: data' =>
          let crc := Z.lxor crc_hi (byte_val b) in
          match lookup_checked crc_hi_table crc, lookup_checked crc_lo_table crc with
          | Some hi, Some lo =>
              crc_loop_checked data' size' (Z.lxor crc_lo hi) lo
          | _, _ => None
          end
      end
  end.

Definition calcCRC16_checked (data : list byte) (size : nat) : option Z :=
  match crc_loop_checked data size 0xFF 0xFF with
  | Some (crc_hi, crc_lo) => Some (crc_hi * 0x0100 + crc_lo)
  | None => None
  end.

(** The byte with value [z], for [0 <= z < 256]. *)
Definition byte_of (z : Z) : byte :=
  match Byte.of_N (Z.to_N z) with
  | Some b => b
  | None => x00
  end.

Definition is_byte_value (v : Z) : bool := (0 <=? v) && (v <? 256).

(** [a'] is what the attempt [a] becomes with more bytes, when [a] did
    not lack any. *)
Definition settled (a' a : attempt) : Prop := a <> NeedMore -> a' = a.

(** The longest frame: an FC23 request with 255 data bytes. *)
Definition max_frame_length : nat := 268.

(** Unit and function code of a frame line. *)
Definition frame_head (e : event) : option (Z * Z) :=
  match e with
  | Ignoring _ => None
  | Request u fc _ | Response u fc _ | Exception u fc _ => Some (u, fc)
  end.

(** The number of bytes on the wire that the fields of a line stand for,
    and whether a logged count byte is the number of logged data bytes. *)
Definition payload_length (p : payload) : nat :=
  match p with
  | ReadFields _ _ => 8
  | ReadData _ read_data => 5 + length read_data
  | WriteSingle _ write_data => 6 + length write_data
  | WriteAddress _ => 6
  | WriteMultiple _ _ write_data => 9 + length write_data
  | WriteFields _ _ => 8
  | ReadWrite _ _ _ _ write_data => 13 + length write_data
  end.

Definition wire_length (e : event) : nat :=
  match e with
  | Ignoring trash => length trash
  | Request _ _ p | Response _ _ p => payload_length p
  | Exception _ _ _ => 5
  end.

Definition count_matches (e : event) : Prop :=
  match e with
  | Request _ _ (ReadData c l) | Response _ _ (ReadData c l) =>
      c = Z.of_nat (length l)
  | Request _ _ (WriteSingle _ l) | Response _ _ (WriteSingle _ l) =>
      length l = 2%nat
  | _ => True
  end.

(** A line of the log against the bytes it accounts for. *)
Definition entry_valid (x : entry) : Prop :=
  match frame_head (fst x) with
  | None => fst x = Ignoring (snd x) /\ snd x <> []
  | Some (u, fc) =>
      (5 <= length (snd x) <= max_frame_length)%nat /\
      at_ (snd x) 0 = u /\ at_ (snd x) 1 = fc /\
      crc_ok (snd x) (length (snd x) - 2) = true /\
      length (snd x) = wire_length (fst x) /\
      count_matches (fst x)
  end.

(** The same about a shape that matched, before the bytes are cut off. *)
Definition shape_valid (u fc : Z) (d : list byte) (e : event) (n : nat) : Prop :=
  (5 <= n <= max_frame_length)%nat /\ (n <= length d)%nat /\
  frame_head e = Some (u, fc) /\
  crc_ok d (n - 2) = true /\
  n = wire_length e /\ count_matches e.

(** An ignored run that is open holds at least one byte. *)
Definition trash_ok (self : SerialSnooper) : Prop :=
  trash_data self = true -> trash_data_f self <> [].

(** Every "Ignoring data" line is directly followed by a frame line. *)
Fixpoint runs_closed (l : list event) : bool :=
  match l with
  | [] => true
  | e :: rest =>
      match e with
      | Ignoring _ =>
          match rest with
          | [] => false
          | e' :: _ => is_frame e' && runs_closed rest
          end
      | _ => runs_closed rest
      end
  end.

(** What holds of a state and the log written so far. *)
Definition log_ok (self : SerialSnooper) (log : list entry) : Prop :=
  trash_ok self /\ Forall entry_valid log /\ runs_closed (events log) = true.

(** The function codes that have a branch in [decode_modbus]. *)
Definition supported (function_code : Z) : bool :=
  (function_code =? 1) || (function_code =? 2) || (function_code =? 3)
  || (function_code =? 4) || (function_code =? 5) || (function_code =? 6)
  || (function_code =? 15) || (function_code =? 16)
  || (function_code =? 23) || (0x80 <=? function_code).

(** * Properties *)

(** ** Shapes *)

Lemma has_length_true d n : has_length d n = true -> (n <= length d)%nat.
Proof. unfold has_length. apply Nat.leb_le. Qed.

Lemma has_length_false d n : has_length d n = false -> (length d < n)%nat.
Proof. unfold has_length. apply Nat.leb_gt. Qed.

Lemma has_length_intro d n : (n <= length d)%nat -> has_length d n = true.
Proof. unfold has_length. apply Nat.leb_le. Qed.

Ltac split_shape :=
  cbv zeta;
  repeat match goal with
  | |- context [if has_length ?d ?n then _ else _] =>
      let H := fresh "Hlen" in
      destruct (has_length d n) eqn:H;
      [apply has_length_true in H | apply has_length_false in H]
  | |- context [if crc_ok ?d ?n then _ else _] =>
      let H := fresh "Hcrc" in destruct (crc_ok d n) eqn:H
  end.

Section ShapeFacts.

Variables (u fc : Z) (d : list byte).

Ltac shape_fits f :=
  unfold f, attempt_sat, fits; split_shape; simpl; auto; repeat split; lia.

Lemma read_request_fits : attempt_sat (fits d) (read_request u fc d).
Proof. shape_fits read_request. Qed.

Lemma read_response_fits : attempt_sat (fits d) (read_response u fc d).
Proof. shape_fits read_response. Qed.

Lemma write_single_request_fits :
  attempt_sat (fits d) (write_single_request u fc d).
Proof. shape_fits write_single_request. Qed.

Lemma write_coil_response_fits :
  attempt_sat (fits d) (write_coil_response u fc d).
Proof. shape_fits write_coil_response. Qed.

Lemma write_register_response_fits :
  attempt_sat (fits d) (write_register_response u fc d).
Proof. shape_fits write_register_response. Qed.

Lemma write_multiple_request_fits k :
  attempt_sat (fits d) (write_multiple_request u fc d k).
Proof. shape_fits write_multiple_request. Qed.

Lemma write_multiple_response_fits :
  attempt_sat (fits d) (write_multiple_response u fc d).
Proof. shape_fits write_multiple_response. Qed.

Lemma read_write_request_fits :
  attempt_sat (fits d) (read_write_request u fc d).
Proof. shape_fits read_write_request. Qed.

Lemma exception_shape_fits : attempt_sat (fits d) (exception_shape u fc d).
Proof. shape_fits exception_shape. Qed.

(** What kind of event each shape can report. *)
Ltac shape_kind f :=
  unfold f, attempt_sat; split_shape; simpl; auto.

Lemma read_request_kind :
  attempt_sat (fun e _ => is_request e = true) (read_request u fc d).
Proof. shape_kind read_request. Qed.

Lemma read_response_kind :
  attempt_sat (fun e _ => is_response e = true) (read_response u fc d).
Proof. shape_kind read_response. Qed.

Lemma write_single_request_kind :
  attempt_sat (fun e _ => is_request e = true) (write_single_request u fc d).
Proof. shape_kind write_single_request. Qed.

Lemma write_coil_response_kind :
  attempt_sat (fun e _ => is_response e = true) (write_coil_response u fc d).
Proof. shape_kind write_coil_response. Qed.

Lemma write_register_response_kind :
  attempt_sat (fun e _ => is_response e = true)
              (write_register_response u fc d).
Proof. shape_kind write_register_response. Qed.

Lemma write_multiple_request_kind k :
  attempt_sat (fun e _ => is_request e = true)
              (write_multiple_request u fc d k).
Proof. shape_kind write_multiple_request. Qed.

Lemma write_multiple_response_kind :
  attempt_sat (fun e _ => is_response e = true)
              (write_multiple_response u fc d).
Proof. shape_kind write_multiple_response. Qed.

Lemma read_write_request_kind :
  attempt_sat (fun e _ => is_request e = true) (read_write_request u fc d).
Proof. shape_kind read_write_request. Qed.

Lemma exception_shape_kind :
  attempt_sat (fun e _ => is_exception e = true) (exception_shape u fc d).
Proof. shape_kind exception_shape. Qed.

End ShapeFacts.

Lemma attempt_sat_weaken (P1 P2 : event -> nat -> Prop) a :
  (forall e n, P1 e n -> P2 e n) -> attempt_sat P1 a -> attempt_sat P2 a.
Proof. destruct a; simpl; auto. Qed.

Create HintDb shapes.

#[local] Hint Resolve read_request_fits read_response_fits
  write_single_request_fits write_coil_response_fits
  write_register_response_fits write_multiple_request_fits
  write_multiple_response_fits read_write_request_fits
  exception_shape_fits : shapes.

Ltac split_branches :=
  unfold shapes_of; cbv zeta;
  repeat match goal with
  | |- context [if ?c then _ else _] =>
      lazymatch c with
      | has_length _ _ => fail
      | crc_ok _ _ => fail
      | _ => let H := fresh "Hfc" in destruct c eqn:H
      end
  end.

Lemma shapes_of_fit u fc d : Forall (attempt_sat (fits d)) (shapes_of u fc d).
Proof. split_branches; repeat constructor; auto with shapes. Qed.

(** ** [try_shapes] *)

Lemma try_shapes_sat (P : event -> nat -> Prop) l :
  Forall (attempt_sat P) l ->
  forall nm e n, matched (try_shapes l nm) = Some (e, n) -> P e n.
Proof.
  induction 1 as [|a l Ha _ IH]; intros nm e n Hm; simpl in Hm.
  - discriminate.
  - destruct a; simpl in *.
    + injection Hm as <- <-. exact Ha.
    + eauto.
    + eauto.
Qed.

Lemma try_shapes_need_more l :
  need_more_data (try_shapes l true) = true.
Proof. induction l as [|[] l IH]; simpl; auto. Qed.

(** Once the first shape of a branch has not matched, the verdict is that
    of the remaining shapes, with [need_more_data] set if the first lacked
    bytes. *)
Lemma try_shapes_skip a l nm :
  (forall e n, a <> Matched e n) ->
  try_shapes (a :: l) nm = try_shapes l (nm || is_need_more a).
Proof.
  intros Ha. destruct a; simpl.
  - exfalso. eapply Ha. reflexivity.
  - now rewrite orb_false_r.
  - now rewrite orb_true_r.
Qed.

(** A frame reported together with [need_more_data] comes from a shape
    after the first one. *)
Lemma try_shapes_late (P : event -> nat -> Prop) a l e n :
  Forall (attempt_sat P) l ->
  try_shapes (a :: l) false = Verdict (Some (e, n)) true ->
  P e n.
Proof.
  intros Hl Hv. destruct a; simpl in Hv.
  - discriminate.
  - eapply try_shapes_sat; [exact Hl|]. rewrite Hv. reflexivity.
  - eapply try_shapes_sat; [exact Hl|]. rewrite Hv. reflexivity.
Qed.

(** ** One frame *)

Lemma decode_frame_short d :
  (length d <= 2)%nat -> decode_frame d = Verdict None true.
Proof.
  intros H. unfold decode_frame.
  destruct (2 <? length d)%nat eqn:E; [apply Nat.ltb_lt in E; lia | reflexivity].
Qed.

Lemma decode_frame_long d :
  (2 < length d)%nat ->
  decode_frame d = try_shapes (shapes_of (at_ d 0) (at_ d 1) d) false.
Proof.
  intros H. unfold decode_frame.
  destruct (2 <? length d)%nat eqn:E; [reflexivity | apply Nat.ltb_ge in E; lia].
Qed.

Lemma decode_frame_fits d e n :
  matched (decode_frame d) = Some (e, n) -> fits d e n.
Proof.
  unfold decode_frame. destruct (2 <? length d)%nat; [|discriminate].
  apply try_shapes_sat, shapes_of_fit.
Qed.

Lemma decode_frame_noise_length d :
  need_more_data (decode_frame d) = false -> (2 < length d)%nat.
Proof.
  unfold decode_frame. destruct (2 <? length d)%nat eqn:E.
  - intros _. now apply Nat.ltb_lt in E.
  - discriminate.
Qed.

(** ** One iteration *)

Lemma loop_body_matched self e n :
  matched (decode_frame (data self)) = Some (e, n) ->
  loop_body self =
    (if need_more_data (decode_frame (data self)) then Return else Continue,
     Snooper (skipn n (data self)) false (trash_data_f self),
     closed_trash self ++ [(e, firstn n (data self))]).
Proof. intros H. unfold loop_body, closed_trash. rewrite H. reflexivity. Qed.

Lemma loop_body_need_more self :
  matched (decode_frame (data self)) = None ->
  need_more_data (decode_frame (data self)) = true ->
  loop_body self = (Return, self, []).
Proof. intros H1 H2. unfold loop_body. rewrite H1, H2. reflexivity. Qed.

Lemma loop_body_noise self :
  matched (decode_frame (data self)) = None ->
  need_more_data (decode_frame (data self)) = false ->
  loop_body self =
    (Continue,
     Snooper (skipn 1 (data self)) true
             (open_trash self ++ [nth 0 (data self) x00]),
     []).
Proof.
  intros H1 H2. unfold loop_body, open_trash. rewrite H1, H2.
  destruct (trash_data self); reflexivity.
Qed.

Lemma step_cases self : step_case self.
Proof.
  destruct (matched (decode_frame (data self))) as [[e n]|] eqn:Hm.
  - eapply StepFrame; eauto using decode_frame_fits.
  - destruct (need_more_data (decode_frame (data self))) eqn:Hn.
    + now apply StepNeedMore.
    + apply StepNoise; auto using decode_frame_noise_length.
Qed.

Lemma skipn_shorter {A} (l : list A) n :
  (1 <= n)%nat -> (1 <= length l)%nat -> (length (skipn n l) < length l)%nat.
Proof. intros. rewrite length_skipn. lia. Qed.

(** An iteration that does not return leaves a strictly shorter buffer. *)
Lemma loop_body_shrinks self self' out :
  loop_body self = (Continue, self', out) ->
  (length (data self') < length (data self))%nat.
Proof.
  intros H. destruct (step_cases self) as [e n Hm [Hn _]|Hm Hn|Hm Hn Hl].
  - rewrite (loop_body_matched _ _ _ Hm) in H.
    injection H as _ <- _. cbn [data]. apply skipn_shorter; lia.
  - rewrite (loop_body_need_more _ Hm Hn) in H. discriminate.
  - rewrite (loop_body_noise _ Hm Hn) in H.
    injection H as <- _. cbn [data].
    destruct (data self); simpl in *; lia.
Qed.

(** Every iteration accounts for the bytes it takes from the buffer. *)
Lemma loop_body_accounts self c self' out :
  loop_body self = (c, self', out) ->
  spans out ++ open_trash self' ++ data self' = open_trash self ++ data self.
Proof.
  intros H. destruct (step_cases self) as [e n Hm _|Hm Hn|Hm Hn Hl].
  - rewrite (loop_body_matched _ _ _ Hm) in H.
    injection H as _ <- <-. unfold spans, open_trash, closed_trash. simpl.
    destruct (trash_data self); simpl;
      rewrite ?app_nil_r, <- ?app_assoc; now rewrite firstn_skipn.
  - rewrite (loop_body_need_more _ Hm Hn) in H.
    injection H as _ <- <-. reflexivity.
  - rewrite (loop_body_noise _ Hm Hn) in H.
    injection H as _ <- <-. unfold spans, open_trash at 1. simpl.
    destruct (data self) as [|b rest]; [simpl in Hl; lia|].
    simpl. now rewrite <- app_assoc.
Qed.

(** ** The loop *)

Lemma spans_app l1 l2 : spans (l1 ++ l2) = spans l1 ++ spans l2.
Proof. unfold spans. now rewrite map_app, concat_app. Qed.

Lemma events_app l1 l2 : events (l1 ++ l2) = events l1 ++ events l2.
Proof. unfold events. apply map_app. Qed.

(** The log is only ever extended, and what is appended does not depend
    on what was there. *)
Lemma decode_loop_shift fuel : forall self log s log',
  decode_loop fuel self log = Some (s, log') ->
  exists out, log' = log ++ out /\
    forall log0, decode_loop fuel self log0 = Some (s, log0 ++ out).
Proof.
  induction fuel as [|fuel IH]; intros self log s log' H; simpl in *.
  - discriminate.
  - destruct (loop_body self) as [[c self'] o] eqn:Hb. destruct c.
    + injection H as <- <-. exists o. auto.
    + destruct (IH _ _ _ _ H) as (out & E & Hall).
      exists (o ++ out). split.
      * now rewrite E, app_assoc.
      * intros log0. now rewrite Hall, app_assoc.
Qed.

Lemma decode_loop_prefix fuel self log s out :
  decode_loop fuel self [] = Some (s, out) ->
  decode_loop fuel self log = Some (s, log ++ out).
Proof.
  intros H. destruct (decode_loop_shift _ _ _ _ _ H) as (o & E & Hall).
  simpl in E. subst o. apply Hall.
Qed.

(** More fuel does not change a result. *)
Lemma decode_loop_more fuel : forall self log r extra,
  decode_loop fuel self log = Some r ->
  decode_loop (fuel + extra) self log = Some r.
Proof.
  induction fuel as [|fuel IH]; intros self log r extra H; simpl in *.
  - discriminate.
  - destruct (loop_body self) as [[c self'] out]. destruct c; auto.
Qed.

(** Fuel above the buffer length is never used up. *)
Lemma decode_loop_total fuel : forall self log,
  (length (data self) < fuel)%nat ->
  exists r, decode_loop fuel self log = Some r.
Proof.
  induction fuel as [|fuel IH]; intros self log Hf; [lia|]. simpl.
  destruct (loop_body self) as [[c self'] out] eqn:Hb. destruct c.
  - eauto.
  - apply IH. apply loop_body_shrinks in Hb. lia.
Qed.

Lemma decode_modbus_total self : exists r, decode_modbus self = Some r.
Proof. apply decode_loop_total. lia. Qed.

(** A result found with any amount of fuel is the result of
    [decode_modbus]. *)
Lemma decode_modbus_fuel fuel self r :
  decode_loop fuel self [] = Some r -> decode_modbus self = Some r.
Proof.
  intros H. destruct (decode_modbus_total self) as [r' H'].
  unfold decode_modbus in *.
  pose proof (decode_loop_more _ _ _ _ (S (length (data self))) H) as H1.
  pose proof (decode_loop_more _ _ _ _ fuel H') as H2.
  rewrite Nat.add_comm in H2. rewrite H1 in H2. now rewrite H'.
Qed.

Lemma decode_loop_accounts fuel : forall self log s log',
  decode_loop fuel self log = Some (s, log') ->
  spans log' ++ open_trash s ++ data s =
  spans log ++ open_trash self ++ data self.
Proof.
  induction fuel as [|fuel IH]; intros self log s log' H; simpl in *.
  - discriminate.
  - destruct (loop_body self) as [[c self'] out] eqn:Hb.
    apply loop_body_accounts in Hb. destruct c.
    + injection H as <- <-. rewrite spans_app, <- app_assoc. now rewrite Hb.
    + rewrite (IH _ _ _ _ H), spans_app, <- app_assoc. now rewrite Hb.
Qed.

(** ** [process_data] *)

Lemma process_data_chunk self chunk :
  chunk <> [] ->
  process_data self chunk =
    Some (Snooper (data self ++ chunk) (trash_data self) (trash_data_f self),
          []).
Proof. destruct chunk; [congruence | reflexivity]. Qed.

Lemma process_data_silence self :
  process_data self [] =
    if (2 <? length (data self))%nat then decode_modbus self
    else Some (self, []).
Proof. reflexivity. Qed.

Lemma process_data_total self chunk :
  exists r, process_data self chunk = Some r.
Proof.
  destruct chunk.
  - rewrite process_data_silence.
    destruct (2 <? length (data self))%nat; eauto using decode_modbus_total.
  - rewrite process_data_chunk by discriminate. eauto.
Qed.

Lemma process_data_accounts self chunk s out :
  process_data self chunk = Some (s, out) ->
  spans out ++ open_trash s ++ data s =
  open_trash self ++ data self ++ chunk.
Proof.
  destruct chunk as [|b chunk].
  - rewrite process_data_silence, app_nil_r.
    destruct (2 <? length (data self))%nat.
    + intros H. apply decode_loop_accounts in H. exact H.
    + intros H. injection H as <- <-. reflexivity.
  - rewrite process_data_chunk by discriminate.
    intros H. injection H as <- <-. reflexivity.
Qed.

Lemma process_all_accounts chunks : forall self log,
  exists s log',
    process_all self chunks log = Some (s, log') /\
    spans log' ++ open_trash s ++ data s =
    spans log ++ open_trash self ++ data self ++ concat chunks.
Proof.
  induction chunks as [|chunk chunks IH]; intros self log; simpl.
  - exists self, log. now rewrite app_nil_r.
  - destruct (process_data_total self chunk) as [[s out] Hp]. rewrite Hp.
    destruct (IH s (log ++ out)) as (s' & log' & Hr & Hacc).
    exists s', log'. split; [exact Hr|].
    rewrite Hacc, spans_app. apply process_data_accounts in Hp.
    rewrite <- app_assoc. f_equal.
    transitivity ((spans out ++ open_trash s ++ data s) ++ concat chunks).
    + now rewrite <- !app_assoc.
    + rewrite Hp. now rewrite <- !app_assoc.
Qed.

(** ** Function codes *)

Lemma byte_val_range b : 0 <= byte_val b < 256.
Proof.
  unfold byte_val. pose proof (Byte.to_N_bounded b) as H.
  split; [apply N2Z.is_nonneg | lia].
Qed.

(** For a byte, "high bit set" is [>= 0x80], and masking with [0x7F]
    subtracts [0x80]. *)
Lemma high_bit_set b :
  Z.testbit (byte_val b) 7 = true ->
  0x80 <= byte_val b /\ Z.land (byte_val b) 0x7F = byte_val b - 0x80.
Proof.
  destruct b; vm_compute; intros H; try discriminate H;
    (split; [discriminate | reflexivity]).
Qed.

Lemma high_bit_at d i :
  Z.testbit (at_ d i) 7 = true ->
  0x80 <= at_ d i /\ Z.land (at_ d i) 0x7F = at_ d i - 0x80.
Proof. apply high_bit_set. Qed.

Lemma high_bit_clear b :
  Z.testbit (byte_val b) 7 = false -> byte_val b < 0x80.
Proof.
  destruct b; vm_compute; intros H; try discriminate H; reflexivity.
Qed.

Ltac fc_is_not fc k :=
  replace (fc =? k) with false by (symmetry; apply Z.eqb_neq; lia).

(** A function code with its high bit set has the error shape alone. *)
Lemma shapes_of_high u fc d :
  0x80 <= fc -> shapes_of u fc d = [exception_shape u fc d].
Proof.
  intros H. unfold shapes_of. cbv zeta.
  fc_is_not fc 1. fc_is_not fc 2. fc_is_not fc 3. fc_is_not fc 4.
  fc_is_not fc 5. fc_is_not fc 6. fc_is_not fc 15. fc_is_not fc 16.
  fc_is_not fc 23.
  replace (128 <=? fc) with true by (symmetry; apply Z.leb_le; lia).
  reflexivity.
Qed.

Create HintDb kinds.

#[local] Hint Resolve read_request_kind read_response_kind
  write_single_request_kind write_coil_response_kind
  write_register_response_kind write_multiple_request_kind
  write_multiple_response_kind read_write_request_kind
  exception_shape_kind : kinds.

Lemma response_not_request a :
  attempt_sat (fun e _ => is_response e = true) a ->
  attempt_sat (fun e _ => is_request e = false) a.
Proof. apply attempt_sat_weaken. intros [] _; simpl; congruence. Qed.

Lemma exception_not_request a :
  attempt_sat (fun e _ => is_exception e = true) a ->
  attempt_sat (fun e _ => is_request e = false) a.
Proof. apply attempt_sat_weaken. intros [] _; simpl; congruence. Qed.

Lemma request_not_exception a :
  attempt_sat (fun e _ => is_request e = true) a ->
  attempt_sat (fun e _ => is_exception e = false) a.
Proof. apply attempt_sat_weaken. intros [] _; simpl; congruence. Qed.

Lemma response_not_exception a :
  attempt_sat (fun e _ => is_response e = true) a ->
  attempt_sat (fun e _ => is_exception e = false) a.
Proof. apply attempt_sat_weaken. intros [] _; simpl; congruence. Qed.

(** In every branch the shapes after the first report no Request. *)
Lemma shapes_of_later u fc d :
  Forall (attempt_sat (fun e _ => is_request e = false))
         (tl (shapes_of u fc d)).
Proof.
  split_branches; simpl; repeat constructor;
    solve [ apply response_not_request; auto with kinds
          | apply exception_not_request; auto with kinds ].
Qed.

(** Only the branch of function code 16 and the branch of the codes with
    the high bit set hold the error shape. *)
Lemma shapes_of_no_exception u fc d :
  fc < 0x80 -> fc <> 16 ->
  Forall (attempt_sat (fun e _ => is_exception e = false)) (shapes_of u fc d).
Proof.
  intros Hlt Hne. split_branches.
  all: try match goal with
       | H : (_ =? 16) = true |- _ => apply Z.eqb_eq in H; lia
       | H : (128 <=? _) = true |- _ => apply Z.leb_le in H; lia
       end.
  all: repeat apply Forall_cons; try apply Forall_nil.
  all: solve [ apply request_not_exception; auto with kinds
          | apply response_not_exception; auto with kinds ].
Qed.

Arguments calcCRC16 : simpl never.
Arguments crc_ok : simpl never.

(** * The specification's claims *)

(** ** Termination *)

(** C10: the decode loop terminates on every buffer.  An iteration either
    returns what is left of the buffer, or goes on with a strictly shorter
    buffer: without a whole matched frame of at least 5 bytes at its
    front, or, on the noise path, without exactly its first byte.  So
    [decode_modbus] always yields a result, and no amount of fuel above
    the buffer length changes it. *)
Theorem decode_modbus_terminates : forall self : SerialSnooper,
  ((step_control self = Return /\
    exists k, data (step_state self) = skipn k (data self))
   \/ (step_control self = Continue /\
       (exists e n,
          matched (decode_frame (data self)) = Some (e, n) /\
          (5 <= n <= length (data self))%nat /\
          data (step_state self) = skipn n (data self)) /\
       (length (data (step_state self)) < length (data self))%nat)
   \/ (step_control self = Continue /\
       matched (decode_frame (data self)) = None /\
       data (step_state self) = skipn 1 (data self) /\
       (length (data (step_state self)) < length (data self))%nat))
  /\ exists r,
       decode_modbus self = Some r /\
       forall extra log,
         decode_loop (S (length (data self)) + extra) self log =
         Some (fst r, log ++ snd r).
Proof.
  intros self. split.
  - unfold step_control, step_state.
    destruct (step_cases self) as [e n Hm [Hn _]|Hm Hn|Hm Hn Hl].
    + rewrite (loop_body_matched _ _ _ Hm).
      destruct (need_more_data (decode_frame (data self))); cbn [fst snd data].
      * left. split; [reflexivity | now exists n].
      * right. left. split; [reflexivity|]. split.
        -- exists e, n. auto.
        -- apply skipn_shorter; lia.
    + rewrite (loop_body_need_more _ Hm Hn). cbn [fst snd].
      left. split; [reflexivity | now exists 0%nat].
    + rewrite (loop_body_noise _ Hm Hn). cbn [fst snd data].
      right. right. repeat split; auto. apply skipn_shorter; lia.
  - destruct (decode_modbus_total self) as [[s out] Hr].
    exists (s, out). split; [exact Hr|].
    intros extra log. apply decode_loop_more, decode_loop_prefix. exact Hr.
Qed.

(** ** Byte accounting *)

(** C6: whatever the chunk boundaries, every input byte is accounted for
    exactly once and in order: the bytes of the logged ignored runs and
    frames, in emission order, followed by the ignored run that is still
    open and by the bytes still buffered, are the input itself. *)
Theorem byte_accounting : forall chunks : list (list byte),
  exists self log,
    process_all init chunks [] = Some (self, log) /\
    spans log ++ open_trash self ++ data self = concat chunks.
Proof.
  intros chunks.
  destruct (process_all_accounts chunks init []) as (s & log & Hr & Hacc).
  exists s, log. split; [exact Hr | exact Hacc].
Qed.

(** ** The checksum example *)

(** C8, as stated, fails: over the first 6 bytes of
    [01 03 00 00 00 0A C5 CD] the engine does not return [0xCDC5]. *)
Lemma checksum_engine_output_not_CDC5 :
  calcCRC16 read_holding_request 6 <> 0xCDC5.
Proof. vm_compute. discriminate. Qed.

(** C8, amended: [01 03 00 00 00 0A C5 CD] validates and is logged as a
    Request for unit 1, function 3, address 0, quantity 10 once silence
    triggers the decoder.  The engine's 16-bit value over the first
    6 bytes is [0xC5CD]: its high byte is the first checksum byte on the
    wire ([0xC5]) and its low byte the second ([0xCD]), which is how the
    decoder reads the embedded checksum. *)
Theorem checksum_example :
  calcCRC16 read_holding_request 6 = 0xC5CD
  /\ be16 read_holding_request 6 = 0xC5CD
  /\ crc_ok read_holding_request 6 = true
  /\ process_all init [read_holding_request; []] [] =
       Some (Snooper [] false [],
             [(Request 1 3 (ReadFields 0 10), read_holding_request)]).
Proof. repeat split; vm_compute; reflexivity. Qed.

(** ** The inter-frame timeout *)

Lemma all_from_spec f count : forall lo,
  all_from f lo count = true ->
  forall B, lo <= B < lo + Z.of_nat count -> f B = true.
Proof.
  induction count as [|k IH]; intros lo H B HB; [simpl in HB; lia|].
  cbn [all_from] in H. apply andb_prop in H. destruct H as [Hlo Hrest].
  destruct (Z.eq_dec B lo) as [->|Hne]; [exact Hlo|].
  apply (IH (lo + 1) Hrest). lia.
Qed.

Lemma timeouts_below_19200 :
  all_from timeout_checks 1 (Z.to_nat 19199) = true.
Proof. vm_compute. reflexivity. Qed.

Lemma timeout_checked B :
  0 < B < 19200 ->
  exists t, calculate_timeout B = Value t /\
            nearest_double 33 B t = true /\
            nearest_double 77 (2 * B) t = false /\
            PrimFloat.ltb 0.00171875 t = true /\ PrimFloat.leb t 33 = true.
Proof.
  intros HB.
  assert (H : timeout_checks B = true).
  { apply (all_from_spec _ _ _ timeouts_below_19200). lia. }
  unfold timeout_checks in H.
  destruct (calculate_timeout B) as [t| |]; try discriminate H.
  apply andb_prop in H. destruct H as [H H4].
  apply andb_prop in H. destruct H as [H H3].
  apply andb_prop in H. destruct H as [H1 H2].
  apply negb_true_iff in H2. exists t. auto 6.
Qed.

(** C9, as stated, fails at baud rate 0: [33 / 0] raises
    [ZeroDivisionError] and no timeout is returned. *)
Lemma calculate_timeout_zero_baud :
  calculate_timeout 0 = ZeroDivisionError /\
  forall t, calculate_timeout 0 <> Value t.
Proof. split; [reflexivity | discriminate]. Qed.

(** C9, amended: for every baud rate from 19200 on the timeout is the
    double [0.00175], the one nearest to 7/4000.  For every baud rate
    below 19200 it is what [33 / B] yields: [ZeroDivisionError] at 0 and,
    for every rate from 1 to 19199, a double nearest to the rational
    33/B, which is not a double nearest to the conventional 38.5/B. *)
Theorem calculate_timeout_formula : forall B : Z,
  (B < 19200 -> calculate_timeout B = int_truediv 33 B)
  /\ (B = 0 -> calculate_timeout B = ZeroDivisionError)
  /\ (0 < B < 19200 ->
      exists t, calculate_timeout B = Value t /\
                nearest_double 33 B t = true /\
                nearest_double 77 (2 * B) t = false)
  /\ (19200 <= B ->
      calculate_timeout B = Value 0.00175 /\
      nearest_double 7 4000 0.00175 = true).
Proof.
  intros B. split; [|split; [|split]].
  - intros H. unfold calculate_timeout.
    destruct (Z.ltb_spec B 19200); [reflexivity | lia].
  - intros ->. reflexivity.
  - intros HB.
    destruct (timeout_checked B HB) as (t & Ht & H1 & H2 & _).
    exists t. auto.
  - intros HB. split.
    + unfold calculate_timeout.
      destruct (Z.ltb_spec B 19200); [lia | reflexivity].
    + vm_compute. reflexivity.
Qed.

Lemma calculate_timeout_formula_witness :
  calculate_timeout (-9600) = int_truediv 33 (-9600)
  /\ calculate_timeout 0 = ZeroDivisionError
  /\ (exists t, calculate_timeout 9600 = Value t /\
                nearest_double 33 9600 t = true /\
                nearest_double 77 (2 * 9600) t = false)
  /\ calculate_timeout 57600 = Value 0.00175.
Proof.
  split; [|split; [|split]].
  - apply (proj1 (calculate_timeout_formula (-9600))). lia.
  - apply (proj1 (proj2 (calculate_timeout_formula 0))). reflexivity.
  - apply (proj1 (proj2 (proj2 (calculate_timeout_formula 9600)))). lia.
  - apply (proj2 (proj2 (proj2 (calculate_timeout_formula 57600)))). lia.
Defined.

(** ** Exceptions *)

(** C2, as stated, fails: the valid frame [01 83 02 C0 F1] is logged as
    an exception, but with the function-code byte [0x83] as it is on the
    wire, not with [0x83 & 0x7F = 3]. *)
Lemma exception_code_not_masked :
  exists s log,
    process_all init [exception_frame_83; []] [] = Some (s, log) /\
    events log = [Exception 1 0x83 2] /\
    events log <> [Exception 1 (Z.land 0x83 0x7F) 2].
Proof.
  eexists. eexists. split; [vm_compute; reflexivity|].
  split; [reflexivity | discriminate].
Qed.

(** C2, amended: whenever the buffer holds at least 5 bytes, its second
    byte has the high bit set and the checksum of bytes [0,3) equals the
    16-bit value at [3,5), the iteration logs an Exception with the unit,
    the function-code byte unchanged and the exception code (after the
    ignored run, if one is open), drops those 5 bytes and goes on; no
    other shape is consulted.  The original code [function_code & 0x7F]
    is that byte minus [0x80]; the decoder does not compute it. *)
Theorem exception_generic : forall self : SerialSnooper,
  (5 <= length (data self))%nat ->
  Z.testbit (at_ (data self) 1) 7 = true ->
  crc_ok (data self) 3 = true ->
  shapes_of (at_ (data self) 0) (at_ (data self) 1) (data self) =
    [exception_shape (at_ (data self) 0) (at_ (data self) 1) (data self)]
  /\ loop_body self =
       (Continue,
        Snooper (skipn 5 (data self)) false (trash_data_f self),
        closed_trash self ++
        [(Exception (at_ (data self) 0) (at_ (data self) 1)
                    (at_ (data self) 2),
          firstn 5 (data self))])
  /\ Z.land (at_ (data self) 1) 0x7F = at_ (data self) 1 - 0x80.
Proof.
  intros self Hlen Hbit Hcrc.
  destruct (high_bit_at _ _ Hbit) as [Hhigh Hmask].
  pose proof (shapes_of_high (at_ (data self) 0) _ (data self) Hhigh) as Hs.
  assert (Hv : decode_frame (data self) =
               Verdict (Some (Exception (at_ (data self) 0)
                                (at_ (data self) 1) (at_ (data self) 2),
                              5%nat)) false).
  { rewrite decode_frame_long by lia. rewrite Hs. unfold exception_shape.
    rewrite has_length_intro by exact Hlen. rewrite Hcrc. reflexivity. }
  repeat split; [exact Hs | | exact Hmask].
  erewrite loop_body_matched by (rewrite Hv; reflexivity).
  rewrite Hv. reflexivity.
Qed.

Lemma exception_generic_witness :
  loop_body (Snooper exception_frame_83 true [xff]) =
    (Continue, Snooper [] false [xff],
     [(Ignoring [xff], [xff]); (Exception 1 0x83 2, exception_frame_83)])
  /\ Z.land 0x83 0x7F = 0x83 - 0x80.
Proof.
  destruct (exception_generic (Snooper exception_frame_83 true [xff]))
    as (_ & Hbody & Hmask).
  - simpl. lia.
  - reflexivity.
  - vm_compute. reflexivity.
  - split; [exact Hbody | exact Hmask].
Defined.

(** C4, as stated, fails: the error check inside the branch of function
    code 16 is reachable.  [01 10 02 AC 01] has function code [0x10],
    below [0x80], and is logged as an exception. *)
Lemma fc16_exception_reachable :
  at_ exception_frame_10 1 < 0x80 /\
  process_all init [exception_frame_10; []] [] =
    Some (Snooper [] false [],
          [(Exception 1 16 2, exception_frame_10)]).
Proof. split; vm_compute; reflexivity. Qed.

(** C4, amended: an Exception is logged only for a function-code byte
    with the high bit set or equal to 16; for every buffer whose second
    byte is below [0x80] and is not 16, the iteration logs no
    Exception. *)
Theorem exception_only_high_bit_or_fc16 : forall self : SerialSnooper,
  (forall e n,
     matched (decode_frame (data self)) = Some (e, n) ->
     is_exception e = true ->
     0x80 <= at_ (data self) 1 \/ at_ (data self) 1 = 16)
  /\ (at_ (data self) 1 < 0x80 ->
      at_ (data self) 1 <> 16 ->
      forall x, In x (step_out self) -> is_exception (fst x) = false).
Proof.
  intros self.
  assert (Hno : at_ (data self) 1 < 0x80 -> at_ (data self) 1 <> 16 ->
                forall e n, matched (decode_frame (data self)) = Some (e, n) ->
                            is_exception e = false).
  { intros Hlt Hne e n Hm. unfold decode_frame in Hm.
    destruct (2 <? length (data self))%nat; [|discriminate].
    revert Hm. apply (try_shapes_sat (fun e _ => is_exception e = false)).
    now apply shapes_of_no_exception. }
  split.
  - intros e n Hm He.
    destruct (Z.lt_ge_cases (at_ (data self) 1) 0x80) as [Hlt|Hge]; [|lia].
    destruct (Z.eq_dec (at_ (data self) 1) 16) as [Heq|Hne]; [now right|].
    rewrite (Hno Hlt Hne e n Hm) in He. discriminate.
  - intros Hlt Hne x Hin. unfold step_out in Hin.
    destruct (step_cases self) as [e n Hm _|Hm Hn|Hm Hn Hl].
    + rewrite (loop_body_matched _ _ _ Hm) in Hin. cbn [snd] in Hin.
      apply in_app_or in Hin. destruct Hin as [Hin|[<-|[]]].
      * unfold closed_trash in Hin.
        destruct (trash_data self); [|contradiction].
        destruct Hin as [<-|[]]. reflexivity.
      * simpl. eauto.
    + rewrite (loop_body_need_more _ Hm Hn) in Hin. contradiction.
    + rewrite (loop_body_noise _ Hm Hn) in Hin. contradiction.
Qed.

Lemma exception_only_high_bit_or_fc16_witness :
  (0x80 <= at_ exception_frame_83 1 \/ at_ exception_frame_83 1 = 16)
  /\ is_exception
       (fst (Request 1 3 (ReadFields 0 10), read_holding_request)) = false.
Proof.
  split.
  - apply (proj1 (exception_only_high_bit_or_fc16
                    (Snooper exception_frame_83 false []))
             (Exception 1 0x83 2) 5%nat).
    + vm_compute. reflexivity.
    + reflexivity.
  - apply (proj2 (exception_only_high_bit_or_fc16
                    (Snooper read_holding_request false []))).
    + vm_compute. reflexivity.
    + vm_compute. discriminate.
    + vm_compute. left. reflexivity.
Defined.

(** ** Request before Response *)

(** C3, as stated, fails: with 7 bytes buffered the Request shape of
    function code 3 lacks bytes, and yet the Response shape is tried,
    matches, is logged and its 7 bytes leave the buffer. *)
Lemma response_after_short_request :
  read_request 1 3 read_response_7 = NeedMore /\
  process_all init [read_response_7; []] [] =
    Some (Snooper [] false [],
          [(Response 1 3 (ReadData 2 [x00; x0a]), read_response_7)]).
Proof. split; vm_compute; reflexivity. Qed.

(** C3, amended: the shapes after the Request shape are tried whenever
    the Request shape did not match, for lack of bytes as well as for a
    checksum mismatch.  When a shape lacked bytes the decoder returns
    after this iteration and ignores no byte: either nothing matched, and
    the buffer, the ignored run and the log are unchanged, or a later
    shape matched, and that frame, which is not a Request, is logged and
    leaves the buffer. *)
Theorem need_more_discards_nothing : forall self : SerialSnooper,
  (forall rq rest,
     (2 < length (data self))%nat ->
     shapes_of (at_ (data self) 0) (at_ (data self) 1) (data self)
       = rq :: rest ->
     (forall e n, rq <> Matched e n) ->
     decode_frame (data self) = try_shapes rest (is_need_more rq))
  /\ (need_more_data (decode_frame (data self)) = true ->
      step_control self = Return /\
      ((matched (decode_frame (data self)) = None /\
        step_state self = self /\ step_out self = [])
       \/ exists e n,
            matched (decode_frame (data self)) = Some (e, n) /\
            is_request e = false /\ is_frame e = true /\
            step_state self =
              Snooper (skipn n (data self)) false (trash_data_f self) /\
            step_out self =
              closed_trash self ++ [(e, firstn n (data self))])).
Proof.
  intros self. split.
  - intros rq rest Hlen Hs Hrq.
    rewrite decode_frame_long, Hs by exact Hlen.
    now rewrite try_shapes_skip.
  - intros Hnm. unfold step_control, step_state, step_out.
    destruct (step_cases self) as [e n Hm [_ Hf]|Hm Hn|Hm Hn Hl].
    + rewrite (loop_body_matched _ _ _ Hm), Hnm. cbn [fst snd].
      split; [reflexivity|]. right. exists e, n.
      repeat split; auto.
      assert (Hlen : (2 < length (data self))%nat).
      { apply decode_frame_fits in Hm. destruct Hm as [? _]. lia. }
      pose proof (shapes_of_later (at_ (data self) 0) (at_ (data self) 1)
                    (data self)) as Hlater.
      rewrite decode_frame_long in Hm, Hnm by exact Hlen.
      destruct (shapes_of _ _ _) as [|rq rest]; [discriminate|].
      simpl in Hlater.
      apply (try_shapes_late (fun e _ => is_request e = false) rq rest e n);
        [exact Hlater|].
      destruct (try_shapes (rq :: rest) false) as [m nm]. simpl in *.
      now subst.
    + rewrite (loop_body_need_more _ Hm Hn). cbn [fst snd]. auto.
    + congruence.
Qed.

Lemma need_more_discards_nothing_witness :
  decode_frame read_response_7 =
    try_shapes [read_response 1 3 read_response_7] true
  /\ step_control (Snooper read_response_7 false []) = Return.
Proof.
  split.
  - apply (proj1 (need_more_discards_nothing
                    (Snooper read_response_7 false []))
             (read_request 1 3 read_response_7)).
    + simpl. lia.
    + reflexivity.
    + vm_compute. discriminate.
  - apply (proj2 (need_more_discards_nothing
                    (Snooper read_response_7 false []))).
    vm_compute. reflexivity.
Defined.

(** ** Variable-length responses *)




(** ** Running the loop by hand *)

Lemma decode_loop_continue fuel self log self' out :
  loop_body self = (Continue, self', out) ->
  decode_loop (S fuel) self log = decode_loop fuel self' (log ++ out).
Proof. intros H. simpl. now rewrite H. Qed.

Lemma decode_loop_return fuel self log self' out :
  loop_body self = (Return, self', out) ->
  decode_loop (S fuel) self log = Some (self', log ++ out).
Proof. intros H. simpl. now rewrite H. Qed.

Lemma step_noise self :
  decode_frame (data self) = Verdict None false ->
  loop_body self =
    (Continue,
     Snooper (skipn 1 (data self)) true
             (open_trash self ++ [nth 0 (data self) x00]),
     []).
Proof. intros H. apply loop_body_noise; rewrite H; reflexivity. Qed.

Lemma step_frame self e n nm :
  decode_frame (data self) = Verdict (Some (e, n)) nm ->
  loop_body self =
    (if nm then Return else Continue,
     Snooper (skipn n (data self)) false (trash_data_f self),
     closed_trash self ++ [(e, firstn n (data self))]).
Proof.
  intros H. rewrite (loop_body_matched self e n) by (rewrite H; reflexivity).
  rewrite H. reflexivity.
Qed.

Lemma step_wait self :
  decode_frame (data self) = Verdict None true ->
  loop_body self = (Return, self, []).
Proof. intros H. apply loop_body_need_more; rewrite H; reflexivity. Qed.

(** A buffer that is exactly one frame is decoded to that frame. *)
Lemma decode_whole_frame frame e t tf :
  matched (decode_frame frame) = Some (e, length frame) ->
  decode_modbus (Snooper frame t tf) =
    Some (Snooper [] false tf,
          closed_trash (Snooper frame t tf) ++ [(e, frame)]).
Proof.
  intros Hm. apply (decode_modbus_fuel 2).
  destruct (decode_frame frame) as [m nm] eqn:Hv. simpl in Hm. subst m.
  pose proof (step_frame (Snooper frame t tf) e (length frame) nm Hv) as Hb.
  cbn [data trash_data_f] in Hb. rewrite skipn_all, firstn_all in Hb.
  destruct nm.
  - rewrite (decode_loop_return _ _ _ _ _ Hb). reflexivity.
  - rewrite (decode_loop_continue _ _ _ _ _ Hb).
    rewrite (decode_loop_return 0 (Snooper [] false tf) _ (Snooper [] false tf) []).
    + now rewrite app_nil_r.
    + apply step_wait. reflexivity.
Qed.

(** ** Resynchronisation *)

(** C7, as stated, fails: [0F 03 00 00 00 0A C4 E3] is a valid frame (alone
    it is logged as a Request of unit 15), but after [FF FF] nothing at
    all is logged.  Once the first [FF] is ignored the buffer starts
    [FF 0F], function code 15, whose Request shape needs 10 bytes where 9
    are left, and the decoder returns. *)
Lemma resync_stalls_before_unit_15 :
  process_all init [read_holding_request_15; []] [] =
    Some (Snooper [] false [],
          [(Request 15 3 (ReadFields 0 10), read_holding_request_15)])
  /\ process_all init [xff :: xff :: read_holding_request_15; []] [] =
       Some (Snooper (xff :: read_holding_request_15) true [xff], []).
Proof. split; vm_compute; reflexivity. Qed.

(** C7, amended: when the buffer [FF FF] followed by a valid frame
    matches no shape and lacks no bytes at its first byte and again at its
    second (as with [01 03 00 00 00 0A C5 CD]), a decode attempt logs
    exactly one ignored run of those two bytes and then the frame, each
    byte once.  And whenever an iteration logs a frame while an ignored
    run is open, the run is closed and logged as one line just before the
    frame. *)
Theorem resync_after_noise :
  forall (frame : list byte) (e : event) (self : SerialSnooper) (e' : event)
         (n : nat),
  (decode_frame (xff :: xff :: frame) = Verdict None false ->
   decode_frame (xff :: frame) = Verdict None false ->
   matched (decode_frame frame) = Some (e, length frame) ->
   process_all init [xff :: xff :: frame; []] [] =
     Some (Snooper [] false [xff; xff],
           [(Ignoring [xff; xff], [xff; xff]); (e, frame)]))
  /\ (trash_data self = true ->
      matched (decode_frame (data self)) = Some (e', n) ->
      step_out self =
        [(Ignoring (trash_data_f self), trash_data_f self);
         (e', firstn n (data self))]
      /\ trash_data (step_state self) = false).
Proof.
  intros frame e self e' n. split.
  - intros H1 H2 H3.
    cbn [process_all]. rewrite process_data_chunk by discriminate.
    cbn [data trash_data trash_data_f app].
    assert (Hlen : (5 <= length frame)%nat).
    { apply decode_frame_fits in H3. destruct H3 as [? _]. lia. }
    rewrite process_data_silence.
    replace (2 <? _)%nat with true
      by (symmetry; apply Nat.ltb_lt; simpl; lia).
    assert (Hrun : decode_modbus (Snooper (xff :: xff :: frame) false []) =
                   Some (Snooper [] false [xff; xff],
                         [(Ignoring [xff; xff], [xff; xff]); (e, frame)])).
    { pose proof (decode_whole_frame frame e true [xff; xff] H3) as Hlast.
      unfold decode_modbus in Hlast. cbn [data] in Hlast.
      apply (decode_modbus_fuel (S (S (S (length frame))))).
      rewrite (decode_loop_continue _ _ _ _ _
                 (step_noise (Snooper (xff :: xff :: frame) false []) H1)).
      cbn [data skipn open_trash trash_data nth app].
      rewrite (decode_loop_continue _ _ _ _ _
                 (step_noise (Snooper (xff :: frame) true [xff]) H2)).
      cbn [data skipn open_trash trash_data trash_data_f nth app].
      exact Hlast. }
    change (Snooper (data init ++ xff :: xff :: frame) (trash_data init)
              (trash_data_f init))
      with (Snooper (xff :: xff :: frame) false []).
    rewrite Hrun. reflexivity.
  - intros Ht Hm. unfold step_out, step_state.
    rewrite (loop_body_matched _ _ _ Hm). cbn [fst snd trash_data].
    unfold closed_trash. rewrite Ht. split; reflexivity.
Qed.

Lemma resync_after_noise_witness :
  process_all init [xff :: xff :: read_holding_request; []] [] =
    Some (Snooper [] false [xff; xff],
          [(Ignoring [xff; xff], [xff; xff]);
           (Request 1 3 (ReadFields 0 10), read_holding_request)])
  /\ step_out (Snooper exception_frame_83 true [xff; x00]) =
       [(Ignoring [xff; x00], [xff; x00]);
        (Exception 1 0x83 2, exception_frame_83)].
Proof.
  destruct (resync_after_noise read_holding_request
              (Request 1 3 (ReadFields 0 10))
              (Snooper exception_frame_83 true [xff; x00])
              (Exception 1 0x83 2) 5%nat) as [Hrun Hstep].
  split.
  - apply Hrun; vm_compute; reflexivity.
  - apply Hstep; vm_compute; reflexivity.
Defined.

(** ** Ingesting chunks *)

(** C1, as stated, fails: a non-empty chunk is only buffered.  After the
    first 5 and then the last 3 bytes of the 8-byte Response
    [01 0F 00 00 00 0A D5 CC] nothing is logged, although the buffer then
    holds the whole frame, which a decode attempt would log. *)
Lemma no_decode_on_data :
  process_all init [[x01; x0f; x00; x00; x00]; [x0a; xd5; xcc]] [] =
    Some (Snooper write_coils_response false [], [])
  /\ decode_modbus (Snooper write_coils_response false []) =
       Some (Snooper [] false [],
             [(Response 1 15 (WriteFields 0 10), write_coils_response)]).
Proof. split; vm_compute; reflexivity. Qed.

(** The 8-byte Response of function codes 15 and 16, alone in the
    buffer: the Request shape lacks bytes, the Response shape matches. *)
Lemma decode_write_multiple_response (u fc a1 a2 q1 q2 c1 c2 : byte) :
  fc = x0f \/ fc = x10 ->
  crc_ok [u; fc; a1; a2; q1; q2; c1; c2] 6 = true ->
  decode_frame [u; fc; a1; a2; q1; q2; c1; c2] =
    Verdict (Some (Response (byte_val u) (byte_val fc)
                     (WriteFields (be16 [u; fc; a1; a2; q1; q2; c1; c2] 2)
                                  (be16 [u; fc; a1; a2; q1; q2; c1; c2] 4)),
                   8%nat)) true.
Proof.
  intros Hfc Hcrc. set (frame := [u; fc; a1; a2; q1; q2; c1; c2]) in *.
  rewrite decode_frame_long by (simpl; lia).
  change (at_ frame 0) with (byte_val u).
  change (at_ frame 1) with (byte_val fc).
  destruct Hfc as [Hfc|Hfc].
  - replace (shapes_of (byte_val u) (byte_val fc) frame)
      with [write_multiple_request (byte_val u) (byte_val fc) frame 10;
            write_multiple_response (byte_val u) (byte_val fc) frame]
      by (rewrite Hfc; reflexivity).
    unfold write_multiple_request, write_multiple_response.
    change (has_length frame 10) with false.
    change (has_length frame 8) with true.
    rewrite Hcrc. reflexivity.
  - replace (shapes_of (byte_val u) (byte_val fc) frame)
      with [write_multiple_request (byte_val u) (byte_val fc) frame 11;
            write_multiple_response (byte_val u) (byte_val fc) frame;
            exception_shape (byte_val u) (byte_val fc) frame]
      by (rewrite Hfc; reflexivity).
    unfold write_multiple_request, write_multiple_response.
    change (has_length frame 11) with false.
    change (has_length frame 8) with true.
    rewrite Hcrc. reflexivity.
Qed.

(** C1, amended: [process_data] appends a non-empty chunk to the buffer
    and does nothing else; it is the empty chunk, read when the
    inter-frame silence has elapsed, that runs the decoder, provided more
    than 2 bytes are buffered.  So the first 5 bytes of an 8-byte
    Response of function code 15 or 16 give no log line and a 5-byte
    buffer, the remaining 3 bytes give no log line and an 8-byte buffer,
    and the following empty chunk gives exactly one Response and an empty
    buffer. *)
Theorem process_data_decodes_on_silence :
  forall (self : SerialSnooper) (chunk : list byte)
         (u fc a1 a2 q1 q2 c1 c2 : byte),
  (chunk <> [] ->
   process_data self chunk =
     Some (Snooper (data self ++ chunk) (trash_data self)
                   (trash_data_f self), []))
  /\ ((length (data self) <= 2)%nat -> process_data self [] = Some (self, []))
  /\ ((2 < length (data self))%nat ->
      process_data self [] = decode_modbus self)
  /\ (fc = x0f \/ fc = x10 ->
      crc_ok [u; fc; a1; a2; q1; q2; c1; c2] 6 = true ->
      process_data init [u; fc; a1; a2; q1] =
        Some (Snooper [u; fc; a1; a2; q1] false [], [])
      /\ process_data (Snooper [u; fc; a1; a2; q1] false []) [q2; c1; c2] =
           Some (Snooper [u; fc; a1; a2; q1; q2; c1; c2] false [], [])
      /\ process_data (Snooper [u; fc; a1; a2; q1; q2; c1; c2] false []) [] =
           Some (Snooper [] false [],
                 [(Response (byte_val u) (byte_val fc)
                     (WriteFields
                        (be16 [u; fc; a1; a2; q1; q2; c1; c2] 2)
                        (be16 [u; fc; a1; a2; q1; q2; c1; c2] 4)),
                   [u; fc; a1; a2; q1; q2; c1; c2])])).
Proof.
  intros self chunk u fc a1 a2 q1 q2 c1 c2. repeat split.
  - apply process_data_chunk.
  - intros H. rewrite process_data_silence.
    destruct (2 <? length (data self))%nat eqn:E;
      [apply Nat.ltb_lt in E; lia | reflexivity].
  - intros H. rewrite process_data_silence.
    destruct (2 <? length (data self))%nat eqn:E;
      [reflexivity | apply Nat.ltb_ge in E; lia].
  - set (frame := [u; fc; a1; a2; q1; q2; c1; c2]) in *.
    rewrite process_data_silence.
    change (2 <? length (data (Snooper frame false [])))%nat with true.
    cbv iota.
    pose proof (decode_write_multiple_response u fc a1 a2 q1 q2 c1 c2 H H0)
      as Hv.
    fold frame in Hv.
    apply (decode_modbus_fuel 1).
    rewrite (decode_loop_return 0 _ _ _ _
               (step_frame (Snooper frame false []) _ _ _ Hv)).
    reflexivity.
Qed.

Lemma process_data_decodes_on_silence_witness :
  process_data (Snooper [x01] true [xff]) [x0f; x00] =
    Some (Snooper [x01; x0f; x00] true [xff], [])
  /\ process_data (Snooper [x01; x0f] false []) [] =
       Some (Snooper [x01; x0f] false [], [])
  /\ process_data (Snooper write_coils_response false []) [] =
       decode_modbus (Snooper write_coils_response false [])
  /\ process_data (Snooper write_coils_response false []) [] =
       Some (Snooper [] false [],
             [(Response 1 15 (WriteFields 0 10), write_coils_response)]).
Proof.
  split; [|split; [|split]].
  - apply (proj1 (process_data_decodes_on_silence
                    (Snooper [x01] true [xff]) [x0f; x00]
                    x00 x00 x00 x00 x00 x00 x00 x00)).
    discriminate.
  - apply (proj1 (proj2 (process_data_decodes_on_silence
                    (Snooper [x01; x0f] false []) []
                    x00 x00 x00 x00 x00 x00 x00 x00))).
    simpl. lia.
  - apply (proj1 (proj2 (proj2 (process_data_decodes_on_silence
                    (Snooper write_coils_response false []) []
                    x00 x00 x00 x00 x00 x00 x00 x00)))).
    simpl. lia.
  - apply (proj2 (proj2 (proj2 (process_data_decodes_on_silence
                    init [] x01 x0f x00 x00 x00 x0a xd5 xcc)))).
    + left. reflexivity.
    + vm_compute. reflexivity.
Defined.

(** * Further properties of the code *)

(** ** The checksum engine *)

Lemma tables_hold_bytes :
  forallb is_byte_value crc_hi_table = true /\
  forallb is_byte_value crc_lo_table = true /\
  length crc_hi_table = 256%nat /\ length crc_lo_table = 256%nat.
Proof. repeat split; vm_compute; reflexivity. Qed.

Lemma is_byte_value_spec v : is_byte_value v = true -> 0 <= v < 256.
Proof. unfold is_byte_value. intros H. apply andb_prop in H. lia. Qed.

Lemma lxor_byte a b : 0 <= a < 256 -> 0 <= b < 256 -> 0 <= Z.lxor a b < 256.
Proof.
  intros Ha Hb. split; [apply Z.lxor_nonneg; lia|].
  destruct (Z.eq_dec (Z.lxor a b) 0) as [->|Hnz]; [lia|].
  assert (Hpos : 0 < Z.lxor a b).
  { pose proof (proj2 (Z.lxor_nonneg a b)). lia. }
  change 256 with (2 ^ 8). apply Z.log2_lt_pow2; [exact Hpos|].
  pose proof (Z.log2_lxor a b) as Hl.
  assert (Z.log2 a < 8).
  { destruct (Z.eq_dec a 0) as [->|]; [simpl; lia|].
    apply Z.log2_lt_pow2; simpl; lia. }
  assert (Z.log2 b < 8).
  { destruct (Z.eq_dec b 0) as [->|]; [simpl; lia|].
    apply Z.log2_lt_pow2; simpl; lia. }
  lia.
Qed.

Lemma lookup_in_table table crc :
  forallb is_byte_value table = true -> length table = 256%nat ->
  0 <= crc < 256 ->
  lookup_checked table crc = Some (lookup table crc) /\
  0 <= lookup table crc < 256.
Proof.
  intros Hall Hlen Hcrc. unfold lookup_checked, list_index, lookup.
  destruct (Z.leb_spec 0 crc); [|lia].
  assert (Hi : (Z.to_nat crc < length table)%nat) by lia.
  split.
  - now apply nth_error_nth'.
  - apply is_byte_value_spec.
    rewrite forallb_forall in Hall. apply Hall. now apply nth_In.
Qed.

Lemma crc_loop_checked_ok data : forall size crc_hi crc_lo,
  (size <= length data)%nat ->
  0 <= crc_hi < 256 -> 0 <= crc_lo < 256 ->
  crc_loop_checked data size crc_hi crc_lo =
    Some (crc_loop data size crc_hi crc_lo) /\
  0 <= fst (crc_loop data size crc_hi crc_lo) < 256 /\
  0 <= snd (crc_loop data size crc_hi crc_lo) < 256.
Proof.
  destruct tables_hold_bytes as (Hhi & Hlo & Lhi & Llo).
  induction data as [|b data IH]; intros size crc_hi crc_lo Hsize Hh Hl.
  - destruct size; [simpl; auto | simpl in Hsize; lia].
  - destruct size as [|size]; [simpl; auto|].
    simpl in Hsize. cbn [crc_loop crc_loop_checked]. cbv zeta.
    pose proof (lxor_byte _ _ Hh (byte_val_range b)) as Hc.
    destruct (lookup_in_table _ _ Hhi Lhi Hc) as [-> Hrh].
    destruct (lookup_in_table _ _ Hlo Llo Hc) as [-> Hrl].
    apply IH; [lia | apply lxor_byte; assumption | assumption].
Qed.

(** The loop stops past the end of [data]: the model of [calcCRC16] with
    [size] above the length is the model at the length. *)
Lemma crc_loop_range data : forall size crc_hi crc_lo,
  0 <= crc_hi < 256 -> 0 <= crc_lo < 256 ->
  0 <= fst (crc_loop data size crc_hi crc_lo) < 256 /\
  0 <= snd (crc_loop data size crc_hi crc_lo) < 256.
Proof.
  destruct tables_hold_bytes as (Hhi & Hlo & Lhi & Llo).
  induction data as [|b data IH]; intros size crc_hi crc_lo Hh Hl.
  - destruct size; simpl; auto.
  - destruct size as [|size]; [simpl; auto|].
    cbn [crc_loop]. cbv zeta.
    pose proof (lxor_byte _ _ Hh (byte_val_range b)) as Hc.
    apply IH.
    + apply lxor_byte; [assumption|].
      apply (lookup_in_table _ _ Hhi Lhi Hc).
    + apply (lookup_in_table _ _ Hlo Llo Hc).
Qed.

Lemma calcCRC16_unfold data size :
  calcCRC16 data size =
    fst (crc_loop data size 0xFF 0xFF) * 0x0100 +
    snd (crc_loop data size 0xFF 0xFF).
Proof. unfold calcCRC16. now destruct (crc_loop data size 255 255). Qed.

Lemma crc_loop_checked_short data : forall size crc_hi crc_lo,
  (length data < size)%nat ->
  crc_loop_checked data size crc_hi crc_lo = None.
Proof.
  induction data as [|b data IH]; intros size crc_hi crc_lo Hsize.
  - destruct size; [simpl in Hsize; lia | reflexivity].
  - destruct size as [|size]; [simpl in Hsize; lia|].
    simpl in Hsize. cbn [crc_loop_checked]. cbv zeta.
    destruct (lookup_checked crc_hi_table _); [|reflexivity].
    destruct (lookup_checked crc_lo_table _); [|reflexivity].
    apply IH. lia.
Qed.

(** X1: when [size] does not exceed [len(data)], which is how the decoder
    calls it, [calcCRC16] raises no [IndexError] (no index leaves [data]
    or the two tables) and returns a 16-bit value; when [size] exceeds
    [len(data)] it raises [IndexError]. *)
Theorem calcCRC16_is_16_bit : forall (data : list byte) (size : nat),
  ((size <= length data)%nat ->
   exists crc, calcCRC16_checked data size = Some crc /\
               0 <= crc < 0x10000 /\ crc = calcCRC16 data size)
  /\ ((length data < size)%nat -> calcCRC16_checked data size = None).
Proof.
  intros data size. split.
  - intros Hsize. exists (calcCRC16 data size).
    rewrite calcCRC16_unfold. repeat split.
    + unfold calcCRC16_checked.
      destruct (crc_loop_checked_ok data size 0xFF 0xFF Hsize) as (-> & _);
        try lia.
      now destruct (crc_loop data size 255 255).
    + destruct (crc_loop_range data size 0xFF 0xFF) as [Hh Hl]; lia.
    + destruct (crc_loop_range data size 0xFF 0xFF) as [Hh Hl]; lia.
  - intros Hsize. unfold calcCRC16_checked.
    now rewrite crc_loop_checked_short.
Qed.

Lemma calcCRC16_is_16_bit_witness :
  (exists crc, calcCRC16_checked read_holding_request 6 = Some crc /\
               0 <= crc < 0x10000 /\ crc = calcCRC16 read_holding_request 6)
  /\ calcCRC16_checked read_holding_request 9 = None.
Proof.
  split.
  - apply (proj1 (calcCRC16_is_16_bit read_holding_request 6)).
    simpl. lia.
  - apply (proj2 (calcCRC16_is_16_bit read_holding_request 9)).
    simpl. lia.
Defined.

Lemma crc_loop_app data rest : forall size crc_hi crc_lo,
  (size <= length data)%nat ->
  crc_loop (data ++ rest) size crc_hi crc_lo =
  crc_loop data size crc_hi crc_lo.
Proof.
  induction data as [|b data IH]; intros size crc_hi crc_lo Hsize.
  - destruct size; [|simpl in Hsize; lia]. now destruct rest.
  - destruct size as [|size]; [reflexivity|].
    simpl in Hsize. cbn [app crc_loop]. cbv zeta. apply IH. lia.
Qed.

Lemma calcCRC16_app data rest size :
  (size <= length data)%nat ->
  calcCRC16 (data ++ rest) size = calcCRC16 data size.
Proof. intros H. unfold calcCRC16. now rewrite crc_loop_app. Qed.

Lemma crc_loop_split data1 data2 k : forall crc_hi crc_lo,
  crc_loop (data1 ++ data2) (length data1 + k) crc_hi crc_lo =
  crc_loop data2 k (fst (crc_loop data1 (length data1) crc_hi crc_lo))
                   (snd (crc_loop data1 (length data1) crc_hi crc_lo)).
Proof.
  induction data1 as [|b data1 IH]; intros crc_hi crc_lo.
  - reflexivity.
  - cbn [app length Nat.add crc_loop]. cbv zeta. apply IH.
Qed.

Lemma byte_val_of z : 0 <= z < 256 -> byte_val (byte_of z) = z.
Proof.
  intros Hz. unfold byte_val, byte_of.
  destruct (Byte.of_N (Z.to_N z)) as [b|] eqn:E.
  - apply Byte.to_of_N in E. rewrite E. lia.
  - apply Byte.of_N_None_iff in E. lia.
Qed.

Lemma byte_val_inj a b : byte_val a = byte_val b -> a = b.
Proof.
  unfold byte_val. intros H. apply N2Z.inj in H.
  pose proof (Byte.of_to_N a) as Ha. rewrite H, Byte.of_to_N in Ha.
  congruence.
Qed.

Lemma at_app_l d rest i : (i < length d)%nat -> at_ (d ++ rest) i = at_ d i.
Proof. intros H. unfold at_. now rewrite app_nth1. Qed.

Lemma at_app_r d rest i : at_ (d ++ rest) (length d + i) = at_ rest i.
Proof.
  unfold at_. rewrite app_nth2 by lia. f_equal. f_equal. lia.
Qed.

(** X2: the checksum test of the decoder and the engine fit together.
    After any body, and whatever follows in the buffer, exactly one pair
    of bytes passes [crc16 == met_crc16]: the engine's value of the body,
    high byte first.  Running the engine over the body and these two bytes
    gives 0. *)
Theorem checksum_round_trip : forall (body rest : list byte) (h l : byte),
  (crc_ok (body ++ h :: l :: rest) (length body) = true <->
   h = byte_of (calcCRC16 body (length body) / 0x100) /\
   l = byte_of (calcCRC16 body (length body) mod 0x100))
  /\ calcCRC16
       (body ++ [byte_of (calcCRC16 body (length body) / 0x100);
                 byte_of (calcCRC16 body (length body) mod 0x100)])
       (length body + 2) = 0.
Proof.
  intros body rest h l.
  destruct (crc_loop_range body (length body) 0xFF 0xFF) as [Hh Hl];
    try lia.
  pose proof (calcCRC16_unfold body (length body)) as Hc.
  set (hi := fst (crc_loop body (length body) 255 255)) in *.
  set (lo := snd (crc_loop body (length body) 255 255)) in *.
  assert (Hdiv : calcCRC16 body (length body) / 0x100 = hi).
  { rewrite Hc. rewrite Z.div_add_l by lia. rewrite Z.div_small; lia. }
  assert (Hmod : calcCRC16 body (length body) mod 0x100 = lo).
  { rewrite Hc. rewrite Z.add_comm, Z.mod_add by lia.
    apply Z.mod_small. lia. }
  rewrite Hdiv, Hmod. split.
  - unfold crc_ok, be16.
    rewrite calcCRC16_app by lia.
    replace (length body) with (length body + 0)%nat at 1 by lia.
    rewrite at_app_r.
    rewrite at_app_r. unfold at_. cbn [nth].
    rewrite Hc. rewrite Z.eqb_eq.
    pose proof (byte_val_range h). pose proof (byte_val_range l).
    split.
    + intros E. assert (byte_val h = hi /\ byte_val l = lo) as [E1 E2] by lia.
      split; apply byte_val_inj; now rewrite byte_val_of.
    + intros [-> ->]. rewrite !byte_val_of by lia. reflexivity.
  - rewrite calcCRC16_unfold, crc_loop_split. fold hi lo.
    cbn [crc_loop]. cbv zeta. rewrite !byte_val_of by lia.
    rewrite !Z.lxor_nilpotent.
    change (lookup crc_hi_table 0) with 0.
    change (lookup crc_lo_table 0) with 0.
    rewrite Z.lxor_0_r, Z.lxor_nilpotent. reflexivity.
Qed.

Lemma checksum_round_trip_witness :
  crc_ok ([x01; x03; x00; x00; x00; x0a] ++ xc5 :: xcd :: [xff]) 6 = true.
Proof.
  apply (proj2 (proj1 (checksum_round_trip
                         [x01; x03; x00; x00; x00; x0a] [xff] xc5 xcd))).
  split; vm_compute; reflexivity.
Defined.

(** ** Bytes after a frame *)

Lemma has_length_app d rest k :
  has_length d k = true -> has_length (d ++ rest) k = true.
Proof.
  intros H. apply has_length_true in H. apply has_length_intro.
  rewrite length_app. lia.
Qed.

Lemma be16_app d rest i :
  (i + 2 <= length d)%nat -> be16 (d ++ rest) i = be16 d i.
Proof. intros H. unfold be16. now rewrite !at_app_l by lia. Qed.

Lemma crc_ok_app d rest k :
  (k + 2 <= length d)%nat -> crc_ok (d ++ rest) k = crc_ok d k.
Proof.
  intros H. unfold crc_ok.
  now rewrite be16_app, calcCRC16_app by lia.
Qed.

Lemma slice_app d rest i n :
  (i + n <= length d)%nat -> slice (d ++ rest) i n = slice d i n.
Proof.
  intros H. unfold slice. rewrite skipn_app, firstn_app.
  rewrite length_skipn.
  replace (n - (length d - i))%nat with 0%nat by lia.
  now rewrite firstn_O, app_nil_r.
Qed.

Section Settled.

Variables (u fc : Z) (d rest : list byte).

Ltac pass_length k :=
  let H := fresh "Hlen" in
  destruct (has_length d k) eqn:H; [|congruence];
  rewrite (has_length_app d rest k H); apply has_length_true in H.

Ltac same_fields :=
  rewrite ?crc_ok_app, ?be16_app, ?slice_app, ?at_app_l by lia; reflexivity.

Lemma read_request_settled :
  settled (read_request u fc (d ++ rest)) (read_request u fc d).
Proof. unfold settled, read_request. pass_length 8%nat. same_fields. Qed.

Lemma write_single_request_settled :
  settled (write_single_request u fc (d ++ rest))
          (write_single_request u fc d).
Proof.
  unfold settled, write_single_request. pass_length 8%nat. same_fields.
Qed.

Lemma write_coil_response_settled :
  settled (write_coil_response u fc (d ++ rest))
          (write_coil_response u fc d).
Proof.
  unfold settled, write_coil_response. pass_length 6%nat. same_fields.
Qed.

Lemma write_register_response_settled :
  settled (write_register_response u fc (d ++ rest))
          (write_register_response u fc d).
Proof.
  unfold settled, write_register_response. pass_length 8%nat. same_fields.
Qed.

Lemma write_multiple_response_settled :
  settled (write_multiple_response u fc (d ++ rest))
          (write_multiple_response u fc d).
Proof.
  unfold settled, write_multiple_response. pass_length 8%nat. same_fields.
Qed.

Lemma exception_shape_settled :
  settled (exception_shape u fc (d ++ rest)) (exception_shape u fc d).
Proof. unfold settled, exception_shape. pass_length 5%nat. same_fields. Qed.

Lemma read_response_settled :
  settled (read_response u fc (d ++ rest)) (read_response u fc d).
Proof.
  unfold settled, read_response. cbv zeta. pass_length 7%nat.
  rewrite (at_app_l d rest 2) by lia.
  pass_length (5 + Z.to_nat (at_ d 2))%nat. same_fields.
Qed.

Lemma write_multiple_request_settled k :
  (7 <= k)%nat ->
  settled (write_multiple_request u fc (d ++ rest) k)
          (write_multiple_request u fc d k).
Proof.
  intros Hk. unfold settled, write_multiple_request. cbv zeta. pass_length k.
  rewrite (at_app_l d rest 6) by lia.
  pass_length (9 + Z.to_nat (at_ d 6))%nat. same_fields.
Qed.

Lemma read_write_request_settled :
  settled (read_write_request u fc (d ++ rest)) (read_write_request u fc d).
Proof.
  unfold settled, read_write_request. cbv zeta. pass_length 15%nat.
  rewrite (at_app_l d rest 10) by lia.
  pass_length (13 + Z.to_nat (at_ d 10))%nat. same_fields.
Qed.

End Settled.

Lemma shapes_of_settled u fc d rest :
  Forall2 settled (shapes_of u fc (d ++ rest)) (shapes_of u fc d).
Proof.
  split_branches; repeat constructor;
    auto using read_request_settled, read_response_settled,
      write_single_request_settled, write_coil_response_settled,
      write_register_response_settled, write_multiple_response_settled,
      exception_shape_settled, read_write_request_settled;
    apply write_multiple_request_settled; lia.
Qed.

Lemma try_shapes_settled l' l :
  Forall2 settled l' l ->
  forall nm, need_more_data (try_shapes l nm) = false ->
             try_shapes l' nm = try_shapes l nm.
Proof.
  induction 1 as [|a' a l' l Ha _ IH]; intros nm Hnm; [reflexivity|].
  destruct a as [e n| |].
  - rewrite Ha by discriminate. reflexivity.
  - rewrite Ha by discriminate. simpl in *. now apply IH.
  - simpl in Hnm. now rewrite try_shapes_need_more in Hnm.
Qed.

Lemma decode_frame_app d rest :
  need_more_data (decode_frame d) = false ->
  decode_frame (d ++ rest) = decode_frame d.
Proof.
  intros Hnm. pose proof (decode_frame_noise_length _ Hnm) as Hlen.
  rewrite decode_frame_long in Hnm by exact Hlen.
  rewrite !decode_frame_long by (rewrite ?length_app; lia).
  rewrite !at_app_l by lia.
  apply try_shapes_settled; [apply shapes_of_settled | exact Hnm].
Qed.

(** X3: a verdict reached without any shape lacking bytes is final.  When
    [need_more_data] stays [False] in an iteration, the same iteration on
    the buffer with any bytes appended logs the same lines, makes the same
    change to the ignored run and drops the same bytes from the front. *)
Theorem settled_frames_ignore_later_bytes :
  forall (self : SerialSnooper) (rest : list byte),
  need_more_data (decode_frame (data self)) = false ->
  decode_frame (data self ++ rest) = decode_frame (data self)
  /\ loop_body (Snooper (data self ++ rest) (trash_data self)
                        (trash_data_f self)) =
       (Continue,
        Snooper (data (step_state self) ++ rest)
                (trash_data (step_state self))
                (trash_data_f (step_state self)),
        step_out self).
Proof.
  intros self rest Hnm.
  pose proof (decode_frame_app _ rest Hnm) as Happ.
  split; [exact Happ|].
  unfold step_state, step_out.
  destruct (step_cases self) as [e n Hm [Hn _]|Hm Hn|Hm Hn Hl].
  - rewrite (loop_body_matched self e n Hm), Hnm. cbn [fst snd data trash_data trash_data_f].
    rewrite (loop_body_matched _ e n) by (cbn [data]; now rewrite Happ).
    cbn [data trash_data trash_data_f]. rewrite Happ, Hnm.
    unfold closed_trash. cbn [trash_data trash_data_f].
    rewrite skipn_app, firstn_app.
    replace (n - length (data self))%nat with 0%nat by lia.
    now rewrite skipn_O, firstn_O, app_nil_r.
  - congruence.
  - rewrite (loop_body_noise self Hm Hn). cbn [fst snd data trash_data trash_data_f].
    rewrite loop_body_noise by (cbn [data]; now rewrite Happ).
    unfold open_trash. cbn [data trash_data trash_data_f].
    destruct (data self) as [|b tl]; [simpl in Hl; lia|]. reflexivity.
Qed.

Lemma settled_frames_ignore_later_bytes_witness :
  loop_body (Snooper (read_holding_request ++ [x01; x03]) false []) =
    (Continue, Snooper [x01; x03] false [],
     [(Request 1 3 (ReadFields 0 10), read_holding_request)]).
Proof.
  apply (proj2 (settled_frames_ignore_later_bytes
                  (Snooper read_holding_request false []) [x01; x03]
                  eq_refl)).
Defined.

(** ** What a logged line guarantees *)

Lemma at_range d i : 0 <= at_ d i < 256.
Proof. apply byte_val_range. Qed.

Lemma slice_length d i n :
  (i + n <= length d)%nat -> length (slice d i n) = n.
Proof.
  intros H. unfold slice. rewrite length_firstn, length_skipn. lia.
Qed.

Section ShapeValid.

Variables (u fc : Z) (d : list byte).

Ltac fixed_valid f :=
  unfold f, attempt_sat, shape_valid, max_frame_length; split_shape;
  cbn [frame_head wire_length payload_length count_matches Nat.sub]; auto;
  rewrite ?slice_length by lia; repeat split; solve [lia | assumption].

Lemma read_request_valid :
  attempt_sat (shape_valid u fc d) (read_request u fc d).
Proof. fixed_valid read_request. Qed.

Lemma write_single_request_valid :
  attempt_sat (shape_valid u fc d) (write_single_request u fc d).
Proof. fixed_valid write_single_request. Qed.

Lemma write_coil_response_valid :
  attempt_sat (shape_valid u fc d) (write_coil_response u fc d).
Proof. fixed_valid write_coil_response. Qed.

Lemma write_register_response_valid :
  attempt_sat (shape_valid u fc d) (write_register_response u fc d).
Proof. fixed_valid write_register_response. Qed.

Lemma write_multiple_response_valid :
  attempt_sat (shape_valid u fc d) (write_multiple_response u fc d).
Proof. fixed_valid write_multiple_response. Qed.

Lemma exception_shape_valid :
  attempt_sat (shape_valid u fc d) (exception_shape u fc d).
Proof. fixed_valid exception_shape. Qed.

Ltac counted_valid f i base :=
  unfold f, attempt_sat, shape_valid, max_frame_length; split_shape;
  cbn [frame_head wire_length payload_length count_matches]; auto;
  pose proof (at_range d i);
  rewrite ?slice_length by lia;
  replace (base + 2 + Z.to_nat (at_ d i) - 2)%nat
    with (base + Z.to_nat (at_ d i))%nat by lia;
  repeat split; solve [lia | assumption].

Lemma read_response_valid :
  attempt_sat (shape_valid u fc d) (read_response u fc d).
Proof. counted_valid read_response 2%nat 3%nat. Qed.

Lemma write_multiple_request_valid k :
  attempt_sat (shape_valid u fc d) (write_multiple_request u fc d k).
Proof. counted_valid write_multiple_request 6%nat 7%nat. Qed.

Lemma read_write_request_valid :
  attempt_sat (shape_valid u fc d) (read_write_request u fc d).
Proof. counted_valid read_write_request 10%nat 11%nat. Qed.

End ShapeValid.

Lemma shapes_of_valid u fc d :
  Forall (attempt_sat (shape_valid u fc d)) (shapes_of u fc d).
Proof.
  split_branches; repeat constructor;
    auto using read_request_valid, read_response_valid,
      write_single_request_valid, write_coil_response_valid,
      write_register_response_valid, write_multiple_request_valid,
      write_multiple_response_valid, exception_shape_valid,
      read_write_request_valid.
Qed.

Lemma decode_frame_valid d e n :
  matched (decode_frame d) = Some (e, n) ->
  shape_valid (at_ d 0) (at_ d 1) d e n.
Proof.
  unfold decode_frame. destruct (2 <? length d)%nat; [|discriminate].
  apply try_shapes_sat, shapes_of_valid.
Qed.

Lemma entry_valid_frame d e n :
  shape_valid (at_ d 0) (at_ d 1) d e n -> entry_valid (e, firstn n d).
Proof.
  intros (Hn & Hle & Hhead & Hcrc & Hwire & Hcount).
  unfold entry_valid. cbn [fst snd]. rewrite Hhead.
  assert (Hlen : length (firstn n d) = n) by (rewrite length_firstn; lia).
  rewrite Hlen.
  rewrite <- (firstn_skipn n d) in Hcrc at 1.
  rewrite crc_ok_app in Hcrc by lia.
  repeat split; try assumption; try lia.
  - rewrite <- (firstn_skipn n d) at 2. now rewrite at_app_l by lia.
  - rewrite <- (firstn_skipn n d) at 2. now rewrite at_app_l by lia.
Qed.

Lemma runs_closed_app l1 l2 :
  runs_closed l1 = true -> runs_closed (l1 ++ l2) = runs_closed l2.
Proof.
  induction l1 as [|e rest IH]; intros H; [reflexivity|].
  destruct e; cbn [app runs_closed] in *; auto.
  destruct rest as [|e' rest']; [discriminate|].
  apply andb_prop in H. destruct H as [He' Hrest].
  cbn [app]. rewrite He'. cbn [andb]. apply (IH Hrest).
Qed.

Lemma runs_closed_frame e : is_frame e = true -> runs_closed [e] = true.
Proof. destruct e; [discriminate| | |]; reflexivity. Qed.

(** An iteration keeps [log_ok]. *)
Lemma loop_body_log_ok self log c self' out :
  log_ok self log -> loop_body self = (c, self', out) ->
  log_ok self' (log ++ out).
Proof.
  intros (Ht & Hv & Hr) Hb.
  destruct (step_cases self) as [e n Hm [_ Hf]|Hm Hn|Hm Hn Hl].
  - rewrite (loop_body_matched _ _ _ Hm) in Hb.
    injection Hb as _ <- <-. repeat split.
    + intros H. discriminate H.
    + apply Forall_app. split; [exact Hv|]. apply Forall_app. split.
      * unfold closed_trash. destruct (trash_data self) eqn:E; constructor.
        -- unfold entry_valid. cbn [fst snd frame_head]. auto.
        -- constructor.
      * constructor; [|constructor].
        apply entry_valid_frame, decode_frame_valid, Hm.
    + rewrite events_app, (runs_closed_app _ _ Hr). rewrite events_app.
      unfold closed_trash.
      destruct (trash_data self); cbn [events map fst app];
        (destruct e; [discriminate Hf|..]; reflexivity).
  - rewrite (loop_body_need_more _ Hm Hn) in Hb.
    injection Hb as _ <- <-. rewrite app_nil_r. now repeat split.
  - rewrite (loop_body_noise _ Hm Hn) in Hb.
    injection Hb as _ <- <-. rewrite app_nil_r. repeat split; auto.
    intros _. cbn [trash_data_f]. intros E.
    apply app_eq_nil in E. destruct E as [_ E]. discriminate E.
Qed.

Lemma decode_loop_log_ok fuel : forall self log s log',
  log_ok self log -> decode_loop fuel self log = Some (s, log') ->
  log_ok s log'.
Proof.
  induction fuel as [|fuel IH]; intros self log s log' Hok H; simpl in H.
  - discriminate.
  - destruct (loop_body self) as [[c self'] out] eqn:Hb.
    pose proof (loop_body_log_ok _ _ _ _ _ Hok Hb) as Hok'.
    destruct c.
    + now injection H as <- <-.
    + eapply IH; eassumption.
Qed.

Lemma log_ok_data self log d :
  log_ok self log -> log_ok (Snooper d (trash_data self) (trash_data_f self)) log.
Proof. intros (Ht & Hv & Hr). now repeat split. Qed.

Lemma process_all_log_ok chunks : forall self log s log',
  log_ok self log -> process_all self chunks log = Some (s, log') ->
  log_ok s log'.
Proof.
  induction chunks as [|chunk chunks IH]; intros self log s log' Hok H;
    simpl in H.
  - now injection H as <- <-.
  - destruct (process_data self chunk) as [[s1 out]|] eqn:Hp; [|discriminate].
    assert (Hok1 : log_ok s1 (log ++ out)).
    { destruct chunk as [|b chunk].
      - rewrite process_data_silence in Hp.
        destruct (2 <? length (data self))%nat.
        + unfold decode_modbus in Hp.
          destruct (decode_loop_shift _ _ _ _ _ Hp) as (o & E & Hall).
          simpl in E. subst out.
          eapply decode_loop_log_ok; [exact Hok | apply Hall].
        + injection Hp as <- <-. now rewrite app_nil_r.
      - rewrite process_data_chunk in Hp by discriminate.
        injection Hp as <- <-. rewrite app_nil_r. now apply log_ok_data. }
    eapply IH; eassumption.
Qed.

Lemma process_all_total chunks : forall self log,
  exists s log', process_all self chunks log = Some (s, log').
Proof.
  intros self log.
  destruct (process_all_accounts chunks self log) as (s & log' & H & _).
  eauto.
Qed.

(** X4: every line of the log can be trusted.  From a state whose open
    ignored run, if any, is not empty, and whatever is read: a frame line
    stands for between 5 and 268 bytes that start with the logged unit and
    function code and end with a checksum that the engine confirms; their
    number is the one the logged fields imply, and a logged byte count is
    the number of logged data bytes.  An "Ignoring data" line lists at
    least one byte. *)
Theorem logged_lines_are_valid :
  forall (self : SerialSnooper) (chunks : list (list byte)),
  trash_ok self ->
  exists s log,
    process_all self chunks [] = Some (s, log) /\
    Forall entry_valid log /\ trash_ok s.
Proof.
  intros self chunks Ht.
  destruct (process_all_total chunks self []) as (s & log & H).
  exists s, log. split; [exact H|].
  assert (Hok : log_ok self []) by (repeat split; auto).
  destruct (process_all_log_ok _ _ _ _ _ Hok H) as (Ht' & Hv & _). auto.
Qed.

Lemma logged_lines_are_valid_witness :
  exists s log,
    process_all init [xff :: read_response_7; []; exception_frame_83; []] []
      = Some (s, log) /\
    Forall entry_valid log /\ trash_ok s.
Proof.
  apply (logged_lines_are_valid init). intros H. discriminate H.
Defined.

(** X5: the log has a fixed shape.  Whatever is read, starting with no
    ignored run open, every "Ignoring data" line is directly followed by
    the line of the frame that closed the run: no two such lines follow
    each other and the log never ends with one. *)
Theorem ignored_runs_precede_frames : forall chunks : list (list byte),
  exists s log,
    process_all init chunks [] = Some (s, log) /\
    runs_closed (events log) = true.
Proof.
  intros chunks.
  destruct (process_all_total chunks init []) as (s & log & H).
  exists s, log. split; [exact H|].
  assert (Hok : log_ok init []).
  { repeat split; auto. intros E. discriminate E. }
  now destruct (process_all_log_ok _ _ _ _ _ Hok H) as (_ & _ & Hr).
Qed.

(** ** How much can stay buffered *)

Section Enough.

Variables (u fc : Z) (d : list byte).
Hypothesis Hlong : (max_frame_length <= length d)%nat.

Ltac enough_bytes f i :=
  unfold f, max_frame_length in *; cbv zeta;
  pose proof (at_range d i);
  rewrite ?has_length_intro by lia;
  destruct (crc_ok _ _); discriminate.

Lemma read_request_enough : read_request u fc d <> NeedMore.
Proof. enough_bytes read_request 0%nat. Qed.

Lemma read_response_enough : read_response u fc d <> NeedMore.
Proof. enough_bytes read_response 2%nat. Qed.

Lemma write_single_request_enough : write_single_request u fc d <> NeedMore.
Proof. enough_bytes write_single_request 0%nat. Qed.

Lemma write_coil_response_enough : write_coil_response u fc d <> NeedMore.
Proof. enough_bytes write_coil_response 0%nat. Qed.

Lemma write_register_response_enough :
  write_register_response u fc d <> NeedMore.
Proof. enough_bytes write_register_response 0%nat. Qed.

Lemma write_multiple_request_enough k :
  (k <= 11)%nat -> write_multiple_request u fc d k <> NeedMore.
Proof. intros Hk. enough_bytes write_multiple_request 6%nat. Qed.

Lemma write_multiple_response_enough :
  write_multiple_response u fc d <> NeedMore.
Proof. enough_bytes write_multiple_response 0%nat. Qed.

Lemma read_write_request_enough : read_write_request u fc d <> NeedMore.
Proof. enough_bytes read_write_request 10%nat. Qed.

Lemma exception_shape_enough : exception_shape u fc d <> NeedMore.
Proof. enough_bytes exception_shape 0%nat. Qed.

Lemma shapes_of_enough :
  Forall (fun a => a <> NeedMore) (shapes_of u fc d).
Proof.
  split_branches; repeat constructor;
    auto using read_request_enough, read_response_enough,
      write_single_request_enough, write_coil_response_enough,
      write_register_response_enough, write_multiple_response_enough,
      read_write_request_enough, exception_shape_enough;
    apply write_multiple_request_enough; lia.
Qed.

End Enough.

Lemma try_shapes_enough l :
  Forall (fun a => a <> NeedMore) l ->
  need_more_data (try_shapes l false) = false.
Proof.
  induction 1 as [|a l Ha _ IH]; [reflexivity|].
  destruct a; simpl; auto. congruence.
Qed.

Lemma decode_frame_enough d :
  (max_frame_length <= length d)%nat ->
  need_more_data (decode_frame d) = false.
Proof.
  intros H. rewrite decode_frame_long by (unfold max_frame_length in H; lia).
  now apply try_shapes_enough, shapes_of_enough.
Qed.

Lemma loop_body_return_bound self self' out :
  loop_body self = (Return, self', out) ->
  (length (data self') < max_frame_length)%nat.
Proof.
  intros Hb.
  assert (Hnm : need_more_data (decode_frame (data self)) = true).
  { destruct (step_cases self) as [e n Hm _|Hm Hn|Hm Hn Hl].
    - rewrite (loop_body_matched _ _ _ Hm) in Hb.
      destruct (need_more_data _); [reflexivity | discriminate].
    - exact Hn.
    - rewrite (loop_body_noise _ Hm Hn) in Hb. discriminate. }
  assert (Hlen : (length (data self) < max_frame_length)%nat).
  { destruct (Nat.lt_ge_cases (length (data self)) max_frame_length) as [|Hge];
      [assumption|].
    rewrite (decode_frame_enough _ Hge) in Hnm. discriminate. }
  destruct (step_cases self) as [e n Hm _|Hm Hn|Hm Hn Hl].
  - rewrite (loop_body_matched _ _ _ Hm) in Hb.
    injection Hb as _ <- _. cbn [data]. rewrite length_skipn. lia.
  - rewrite (loop_body_need_more _ Hm Hn) in Hb.
    now injection Hb as <- _.
  - congruence.
Qed.

Lemma decode_loop_bound fuel : forall self log s log',
  decode_loop fuel self log = Some (s, log') ->
  (length (data s) < max_frame_length)%nat.
Proof.
  induction fuel as [|fuel IH]; intros self log s log' H; simpl in H.
  - discriminate.
  - destruct (loop_body self) as [[c self'] out] eqn:Hb. destruct c.
    + injection H as <- _. eapply loop_body_return_bound, Hb.
    + eapply IH, H.
Qed.

Lemma loop_body_no_longer self c self' out :
  loop_body self = (c, self', out) ->
  (length (data self') <= length (data self))%nat.
Proof.
  intros Hb. destruct (step_cases self) as [e n Hm _|Hm Hn|Hm Hn Hl].
  - rewrite (loop_body_matched _ _ _ Hm) in Hb.
    injection Hb as _ <- _. cbn [data]. rewrite length_skipn. lia.
  - rewrite (loop_body_need_more _ Hm Hn) in Hb. now injection Hb as _ <- _.
  - rewrite (loop_body_noise _ Hm Hn) in Hb.
    injection Hb as _ <- _. cbn [data].
    destruct (data self); simpl; lia.
Qed.

Lemma decode_loop_no_longer fuel : forall self log s log',
  decode_loop fuel self log = Some (s, log') ->
  (length (data s) <= length (data self))%nat.
Proof.
  induction fuel as [|fuel IH]; intros self log s log' H; simpl in H.
  - discriminate.
  - destruct (loop_body self) as [[c self'] out] eqn:Hb.
    apply loop_body_no_longer in Hb. destruct c.
    + now injection H as <- _.
    + apply IH in H. lia.
Qed.

(** X6: a silence bounds the buffer.  After [process_data] with an empty
    chunk fewer than 268 bytes stay buffered, however many there were, and
    never more than before: from 268 bytes on no shape lacks bytes, so the
    loop cannot return. *)
Theorem silence_bounds_the_buffer : forall self : SerialSnooper,
  exists s out,
    process_data self [] = Some (s, out) /\
    (length (data s) < max_frame_length)%nat /\
    (length (data s) <= length (data self))%nat.
Proof.
  intros self. destruct (process_data_total self []) as [[s out] Hp].
  exists s, out. split; [exact Hp|].
  rewrite process_data_silence in Hp.
  destruct (2 <? length (data self))%nat eqn:E.
  - split; [eapply decode_loop_bound, Hp | eapply decode_loop_no_longer, Hp].
  - injection Hp as <- _. apply Nat.ltb_ge in E.
    unfold max_frame_length. lia.
Qed.

(** ** Function codes without the usual two shapes *)

Lemma shapes_of_unsupported u fc d :
  supported fc = false -> shapes_of u fc d = [].
Proof.
  unfold supported, shapes_of. cbv zeta. intros H.
  destruct (fc =? 1); [discriminate H|].
  destruct (fc =? 2); [discriminate H|].
  destruct (fc =? 3); [discriminate H|].
  destruct (fc =? 4); [discriminate H|].
  destruct (fc =? 5); [discriminate H|].
  destruct (fc =? 6); [discriminate H|].
  destruct (fc =? 15); [discriminate H|].
  destruct (fc =? 16); [discriminate H|].
  destruct (fc =? 23); [discriminate H|].
  destruct (128 <=? fc); [discriminate H|].
  reflexivity.
Qed.

(** X7: a function code without a branch costs one byte.  With at least
    3 bytes buffered and a second byte that is none of 1-6, 15, 16, 23 and
    below [0x80], the iteration moves exactly the first byte of the buffer
    to the ignored run, logs nothing and goes on, however many bytes
    follow and whether or not they carry a valid checksum. *)
Theorem unknown_function_code_is_noise : forall self : SerialSnooper,
  (2 < length (data self))%nat ->
  supported (at_ (data self) 1) = false ->
  loop_body self =
    (Continue,
     Snooper (skipn 1 (data self)) true
             (open_trash self ++ [nth 0 (data self) x00]),
     []).
Proof.
  intros self Hlen Hfc. apply step_noise.
  rewrite decode_frame_long by exact Hlen.
  now rewrite shapes_of_unsupported.
Qed.

Lemma unknown_function_code_is_noise_witness :
  loop_body (Snooper [x01; x07; x41; xe2] false []) =
    (Continue, Snooper [x07; x41; xe2] true [x01], []).
Proof.
  apply (unknown_function_code_is_noise (Snooper [x01; x07; x41; xe2] false [])).
  - simpl. lia.
  - reflexivity.
Defined.

(** X8: function code 6 is never logged as a Response.  Its Response
    shape is the Request shape over again, and the Request is tried first:
    whatever frame the decoder finds behind function code 6 is logged as a
    Request of 8 bytes. *)
Theorem write_register_echo_is_a_request :
  forall (d : list byte) (e : event) (n : nat),
  at_ d 1 = 6 ->
  matched (decode_frame d) = Some (e, n) ->
  e = Request (at_ d 0) 6 (WriteSingle (be16 d 2) (slice d 4 2)) /\ n = 8%nat.
Proof.
  intros d e n Hfc Hm.
  assert (Hlen : (2 < length d)%nat).
  { apply decode_frame_fits in Hm. destruct Hm as [? _]. lia. }
  rewrite decode_frame_long, Hfc in Hm by exact Hlen.
  change (shapes_of (at_ d 0) 6 d)
    with [write_single_request (at_ d 0) 6 d;
          write_register_response (at_ d 0) 6 d] in Hm.
  unfold write_single_request, write_register_response in Hm.
  destruct (has_length d 8); [|discriminate Hm].
  destruct (crc_ok d 6); [|discriminate Hm].
  simpl in Hm. injection Hm as <- <-. auto.
Qed.

Lemma write_register_echo_is_a_request_witness :
  Request 1 6 (WriteSingle 1 [x00; x03]) =
    Request (at_ [x01; x06; x00; x01; x00; x03; x98; x0b] 0) 6
      (WriteSingle (be16 [x01; x06; x00; x01; x00; x03; x98; x0b] 2)
         (slice [x01; x06; x00; x01; x00; x03; x98; x0b] 4 2))
  /\ 8%nat = 8%nat.
Proof.
  apply (write_register_echo_is_a_request
           [x01; x06; x00; x01; x00; x03; x98; x0b]).
  - reflexivity.
  - vm_compute. reflexivity.
Defined.

(** ** Silence after silence *)

Lemma loop_body_quiet_return self s :
  loop_body self = (Return, s, []) ->
  s = self /\ loop_body s = (Return, s, []).
Proof.
  intros Hb. destruct (step_cases self) as [e n Hm _|Hm Hn|Hm Hn Hl].
  - rewrite (loop_body_matched _ _ _ Hm) in Hb. injection Hb as _ _ E.
    apply app_eq_nil in E. destruct E as [_ E]. discriminate E.
  - pose proof (loop_body_need_more _ Hm Hn) as Hb'.
    rewrite Hb' in Hb. injection Hb as <-. auto.
  - rewrite (loop_body_noise _ Hm Hn) in Hb. discriminate.
Qed.

Lemma decode_loop_quiet fuel : forall self s,
  decode_loop fuel self [] = Some (s, []) ->
  loop_body s = (Return, s, []).
Proof.
  induction fuel as [|fuel IH]; intros self s H; simpl in H.
  - discriminate.
  - destruct (loop_body self) as [[c self'] out] eqn:Hb. destruct c.
    + injection H as <- ->. now apply loop_body_quiet_return in Hb.
    + destruct (decode_loop_shift _ _ _ _ _ H) as (o & E & Hall).
      simpl in E. symmetry in E. apply app_eq_nil in E. destruct E as [-> ->].
      apply (IH self'). apply (Hall []).
Qed.

(** X9: a silence that logs nothing leaves nothing for the next one.  If
    the decoder returns without a log line, running it again, with no new
    bytes, returns at once with the same buffer, the same ignored run and
    no log line: bytes that wait for more data are never given up by
    waiting. *)
Theorem quiet_silence_is_final : forall (self s : SerialSnooper),
  process_data self [] = Some (s, []) ->
  process_data s [] = Some (s, []).
Proof.
  intros self s H. rewrite process_data_silence in *.
  destruct (2 <? length (data self))%nat eqn:E.
  - destruct (2 <? length (data s))%nat; [|reflexivity].
    apply decode_loop_quiet in H.
    apply (decode_modbus_fuel 1). simpl. now rewrite H.
  - injection H as <-. now rewrite E.
Qed.

Lemma quiet_silence_is_final_witness :
  process_data (Snooper (xff :: read_holding_request_15) true [xff]) [] =
    Some (Snooper (xff :: read_holding_request_15) true [xff], []).
Proof.
  apply (quiet_silence_is_final
           (Snooper (xff :: xff :: read_holding_request_15) false [])).
  vm_compute. reflexivity.
Defined.

(** ** Bursts *)

(** X10: between silences only the buffer changes.  Any sequence of
    non-empty chunks leaves the log and the ignored run as they are and
    appends the chunks to the buffer in order, so that where a burst is
    cut into reads makes no difference, and without a silence the buffer
    grows without a bound. *)
Theorem bursts_are_only_buffered :
  forall (chunks : list (list byte)) (self : SerialSnooper) (log : list entry),
  Forall (fun chunk => chunk <> []) chunks ->
  process_all self chunks log =
    Some (Snooper (data self ++ concat chunks) (trash_data self)
                  (trash_data_f self), log).
Proof.
  induction chunks as [|chunk chunks IH]; intros self log Hne.
  - simpl. rewrite app_nil_r. now destruct self.
  - inversion Hne as [|? ? Hc Hrest]; subst.
    cbn [process_all concat]. rewrite (process_data_chunk _ _ Hc).
    rewrite (IH _ _ Hrest). cbn [data trash_data trash_data_f].
    now rewrite app_nil_r, app_assoc.
Qed.

Lemma bursts_are_only_buffered_witness :
  process_all init [[x01]; [x03; x00]; [x00; x00; x0a; xc5; xcd]] [] =
    Some (Snooper read_holding_request false [], []).
Proof.
  apply (bursts_are_only_buffered
           [[x01]; [x03; x00]; [x00; x00; x0a; xc5; xcd]] init []).
  repeat constructor; discriminate.
Defined.

(** ** The timeout *)




(** ** Frame after frame *)

(** X12: a frame that is decoded alone without any shape lacking bytes is
    decoded first in any buffer it leads.  The decoder logs it (after the
    open ignored run, if any), and goes on with the rest exactly as it
    would on the rest alone; so a burst made of such frames is logged
    frame by frame, in order. *)
Theorem leading_frame_is_decoded_first :
  forall (frame rest : list byte) (e : event) (t : bool) (tf : list byte)
         (s : SerialSnooper) (out : list entry),
  decode_frame frame = Verdict (Some (e, length frame)) false ->
  decode_modbus (Snooper rest false tf) = Some (s, out) ->
  decode_modbus (Snooper (frame ++ rest) t tf) =
    Some (s, closed_trash (Snooper frame t tf) ++ (e, frame) :: out).
Proof.
  intros frame rest e t tf s out Hf Hrest.
  assert (Hv : decode_frame (data (Snooper (frame ++ rest) t tf)) =
               Verdict (Some (e, length frame)) false).
  { cbn [data]. rewrite decode_frame_app by (rewrite Hf; reflexivity).
    exact Hf. }
  apply (decode_modbus_fuel (S (S (length rest)))).
  rewrite (decode_loop_continue _ _ _ _ _ (step_frame _ _ _ _ Hv)).
  cbn [data trash_data_f].
  rewrite skipn_app, firstn_app, skipn_all, firstn_all, Nat.sub_diag.
  rewrite skipn_O, firstn_O, app_nil_r. cbn [app].
  unfold decode_modbus in Hrest. cbn [data] in Hrest.
  rewrite (decode_loop_prefix _ _ _ _ _ Hrest).
  unfold closed_trash. cbn [trash_data trash_data_f].
  now rewrite <- app_assoc.
Qed.

Lemma leading_frame_is_decoded_first_witness :
  decode_modbus
    (Snooper (read_holding_request ++ exception_frame_83) true [xff]) =
    Some (Snooper [] false [xff],
          [(Ignoring [xff], [xff]);
           (Request 1 3 (ReadFields 0 10), read_holding_request);
           (Exception 1 0x83 2, exception_frame_83)]).
Proof.
  apply (leading_frame_is_decoded_first read_holding_request
           exception_frame_83 (Request 1 3 (ReadFields 0 10)) true [xff]
           (Snooper [] false [xff])
           [(Exception 1 0x83 2, exception_frame_83)]).
  - vm_compute. reflexivity.
  - vm_compute. reflexivity.
Defined.
